(** * Portfolio globe: solar geometry, orientation, camera pilot, day/night blend

    Shallow embedding of [src/components/GlobeScene.tsx] (the version with the
    camera pilot and the marker helpers) and of the library functions it calls.

    Numbers.  The program computes with JavaScript numbers (IEEE binary64) and,
    in the fragment shader, with GLSL floats.  This development gives every
    arithmetic operation its exact real value: a number is an [R], [Math.sin]
    is [sin], [+] is [Rplus].  Rounding, NaN, infinities and signed zeros are
    outside the model; statements that the program makes "within floating
    tolerance" are proved here exactly, or with an explicit bound.

    An instant ([Date]) is its [getTime()] value, an integer number of
    milliseconds since the Unix epoch. *)

From Stdlib Require Import Reals Lra Lia ZArith Psatz List Bool.
From Stdlib Require Import Zfloor RNsatz Machin.
Import ListNotations.

Open Scope R_scope.

(** ** ECMAScript numeric operators *)

Module JS.

(** The integer of largest magnitude not exceeding [x] in magnitude, with the
    sign of [x]: the quotient that [Number::remainder] uses. *)
Definition trunc (x : R) : Z :=
  if Rle_dec 0 x then Zfloor x else Zceil x.

(** [n % d] on finite numbers with [d <> 0]: [n - d * q] with [q] the
    truncated quotient, so the result carries the sign of the dividend. *)
Definition rem (n d : R) : R := n - d * IZR (trunc (n / d)).

(** [Math.atan2(y, x)], the argument of the point [(x, y)] in (-PI, PI]. *)
Definition atan2 (y x : R) : R :=
  if Rlt_dec 0 x then atan (y / x)
  else if Rlt_dec x 0 then
    if Rle_dec 0 y then atan (y / x) + PI else atan (y / x) - PI
  else if Rlt_dec 0 y then PI / 2
  else if Rlt_dec y 0 then - (PI / 2)
  else 0.

(** [Number.EPSILON], 2^-52. *)
Definition EPSILON : R := / 2 ^ 52.

End JS.

(** ** three.js: the [Vector3], [Quaternion] and [MathUtils] methods in use *)

Module THREE.

Record Vector3 : Type := vec3 { vx : R; vy : R; vz : R }.

Record Quaternion : Type := quat { qx : R; qy : R; qz : R; qw : R }.

Definition DEG2RAD : R := PI / 180.

(** [MathUtils.degToRad] *)
Definition degToRad (degrees : R) : R := degrees * DEG2RAD.

(** [MathUtils.clamp]: [Math.max(min, Math.min(max, value))] *)
Definition clamp (value lo hi : R) : R := Rmax lo (Rmin hi value).

(** [MathUtils.lerp]: [(1 - t) * x + t * y] *)
Definition lerp (x y t : R) : R := (1 - t) * x + t * y.

Definition dot (a b : Vector3) : R :=
  vx a * vx b + vy a * vy b + vz a * vz b.

Definition lengthSq (v : Vector3) : R :=
  vx v * vx v + vy v * vy v + vz v * vz v.

Definition length (v : Vector3) : R := sqrt (lengthSq v).

Definition multiplyScalar (v : Vector3) (s : R) : Vector3 :=
  vec3 (vx v * s) (vy v * s) (vz v * s).

(** [divideScalar(s)] is [multiplyScalar(1 / s)]. *)
Definition divideScalar (v : Vector3) (s : R) : Vector3 :=
  multiplyScalar v (1 / s).

(** [normalize()] is [divideScalar(length() || 1)]: the zero vector stays. *)
Definition normalize (v : Vector3) : Vector3 :=
  divideScalar v (if Req_dec_T (length v) 0 then 1 else length v).

(** [setLength(l)] is [normalize().multiplyScalar(l)]. *)
Definition setLength (v : Vector3) (l : R) : Vector3 :=
  multiplyScalar (normalize v) l.

Definition distanceToSquared (a b : Vector3) : R :=
  let dx := vx a - vx b in
  let dy := vy a - vy b in
  let dz := vz a - vz b in
  dx * dx + dy * dy + dz * dz.

Definition distanceTo (a b : Vector3) : R := sqrt (distanceToSquared a b).

(** [lerpVectors(v1, v2, alpha)] *)
Definition lerpVectors (v1 v2 : Vector3) (alpha : R) : Vector3 :=
  vec3 (vx v1 + (vx v2 - vx v1) * alpha)
       (vy v1 + (vy v2 - vy v1) * alpha)
       (vz v1 + (vz v2 - vz v1) * alpha).

Definition qlength (q : Quaternion) : R :=
  sqrt (qx q * qx q + qy q * qy q + qz q * qz q + qw q * qw q).

(** [Quaternion.normalize()]: a zero quaternion becomes the identity. *)
Definition qnormalize (q : Quaternion) : Quaternion :=
  let l := qlength q in
  if Req_dec_T l 0 then quat 0 0 0 1
  else let l' := 1 / l in quat (qx q * l') (qy q * l') (qz q * l') (qw q * l').

Section UnitVectors.

(** The bound under which [vFrom . vTo + 1] counts as "opposite".  It is a
    constant of the library ([Number.EPSILON] in most releases, a larger
    literal in recent ones); the development is uniform in it. *)
Variable eps : R.

(** [Quaternion.setFromUnitVectors(vFrom, vTo)]: both arguments are assumed
    normalized.  When they are (nearly) opposite the axis is a vector
    orthogonal to [vFrom]; otherwise it is their cross product. *)
Definition setFromUnitVectors (vFrom vTo : Vector3) : Quaternion :=
  let r := dot vFrom vTo + 1 in
  qnormalize
    (if Rlt_dec r eps then
       if Rlt_dec (Rabs (vz vFrom)) (Rabs (vx vFrom))
       then quat (- vy vFrom) (vx vFrom) 0 0
       else quat 0 (- vz vFrom) (vy vFrom) 0
     else
       quat (vy vFrom * vz vTo - vz vFrom * vy vTo)
            (vz vFrom * vx vTo - vx vFrom * vz vTo)
            (vx vFrom * vy vTo - vy vFrom * vx vTo)
            r).

End UnitVectors.

(** [Vector3.applyQuaternion(q)]: [v + w t + q.xyz x t] with [t = 2 q.xyz x v]. *)
Definition applyQuaternion (v : Vector3) (q : Quaternion) : Vector3 :=
  let tx := 2 * (qy q * vz v - qz q * vy v) in
  let ty := 2 * (qz q * vx v - qx q * vz v) in
  let tz := 2 * (qx q * vy v - qy q * vx v) in
  vec3 (vx v + qw q * tx + qy q * tz - qz q * ty)
       (vy v + qw q * ty + qz q * tx - qx q * tz)
       (vz v + qw q * tz + qx q * ty - qy q * tx).

End THREE.

(** ** GLSL built-ins of the fragment shader *)

Module GLSL.

Definition clamp (x lo hi : R) : R := Rmin (Rmax x lo) hi.

(** [normalize(v)] is [v / length(v)]. *)
Definition normalize (v : THREE.Vector3) : THREE.Vector3 :=
  THREE.vec3 (THREE.vx v / THREE.length v) (THREE.vy v / THREE.length v)
             (THREE.vz v / THREE.length v).

(** [smoothstep(edge0, edge1, x)]: Hermite interpolation of the clamped
    ratio [(x - edge0) / (edge1 - edge0)]. *)
Definition smoothstep (edge0 edge1 x : R) : R :=
  let t := clamp ((x - edge0) / (edge1 - edge0)) 0 1 in
  t * t * (3 - 2 * t).

End GLSL.

Import THREE.

(** ** Globe configuration *)

Definition SUN_W : Vector3 := normalize (vec3 (-0.7) 0.7 0.75).
Definition TIME_SCALE : R := 1.
Definition AMBIENT : R := 0.1.

Definition CLOUD_ROTATION_PERIOD_HOURS : R := 12.
Definition CLOUD_SPEED_MULTIPLIER : R := 36.
Definition OMEGA_CLOUD : R := (2 * PI) / (CLOUD_ROTATION_PERIOD_HOURS * 3600).

(** ** Solar geometry *)

Definition Instant : Type := Z.

Definition DEG : R := PI / 180.
Definition jd (d : Instant) : R := IZR d / 86400000 + 2440587.5.
Definition T (J : R) : R := (J - 2451545.0) / 36525.0.

Definition n2 (a : R) : R :=
  let a' := JS.rem a (2 * PI) in
  if Rlt_dec a' 0 then a' + 2 * PI else a'.

(** The two [% 360] reductions of [solarRAdecAndGMST], named so that their
    values can be spoken of. *)
Definition meanLongitude (t : R) : R :=
  JS.rem (280.46646 + t * (36000.76983 + 0.0003032 * t)) 360.

Definition siderealDegrees (J t : R) : R :=
  JS.rem (280.46061837 + 360.98564736629 * (J - 2451545.0)
          + 0.000387933 * t * t - (t * t * t) / 38710000) 360.

Record RAdecGMST : Type := mkRAdecGMST { ra : R; dec : R; GMST : R }.

(** [Math.asin] is applied to a product of two sines, inside its domain,
    where it agrees with [asin]. *)
Definition solarRAdecAndGMST (d : Instant) : RAdecGMST :=
  let J := jd d in
  let t := T J in
  let L0 := meanLongitude t in
  let M := 357.52911 + t * (35999.05029 - 0.0001537 * t) in
  let Mr := M * DEG in
  let Omega := 125.04 - 1934.136 * t in
  let C := (1.914602 - t * (0.004817 + 0.000014 * t)) * sin Mr
           + (0.019993 - 0.000101 * t) * sin (2.0 * Mr)
           + 0.000289 * sin (3.0 * Mr) in
  let trueLong := L0 + C in
  let lambdaApp := trueLong - 0.00569 - 0.00478 * sin (Omega * DEG) in
  let eps0 := 23 + 26 / 60 + 21.448 / 3600
              - (46.8150 * t + 0.00059 * t * t - 0.001813 * t * t * t) / 3600 in
  let eps := eps0 + 0.00256 * cos (Omega * DEG) in
  let lam := lambdaApp * DEG in
  let epsR := eps * DEG in
  let dec := asin (sin epsR * sin lam) in
  let ra := n2 (JS.atan2 (cos epsR * sin lam) (cos lam)) in
  let GMSTdeg := siderealDegrees J t in
  let GMST := n2 (GMSTdeg * DEG) in
  mkRAdecGMST ra dec GMST.

(** The intermediate quantities of [solarRAdecAndGMST], as functions of the
    Julian centuries [t]: mean anomaly [M], node [Omega], equation of centre
    [C], apparent longitude [lambdaApp] and obliquity [eps], all in degrees. *)
Definition meanAnomaly (t : R) : R :=
  357.52911 + t * (35999.05029 - 0.0001537 * t).

Definition ascendingNode (t : R) : R := 125.04 - 1934.136 * t.

Definition equationOfCenter (t : R) : R :=
  let Mr := meanAnomaly t * DEG in
  (1.914602 - t * (0.004817 + 0.000014 * t)) * sin Mr
  + (0.019993 - 0.000101 * t) * sin (2.0 * Mr)
  + 0.000289 * sin (3.0 * Mr).

Definition apparentLongitude (t : R) : R :=
  meanLongitude t + equationOfCenter t
  - 0.00569 - 0.00478 * sin (ascendingNode t * DEG).

Definition obliquity (t : R) : R :=
  23 + 26 / 60 + 21.448 / 3600
  - (46.8150 * t + 0.00059 * t * t - 0.001813 * t * t * t) / 3600
  + 0.00256 * cos (ascendingNode t * DEG).

(** The declination in degrees. *)
Definition declinationDeg (d : Instant) : R := dec (solarRAdecAndGMST d) / DEG.

(** The time value of the UTC date-time [y-mo-d T h:mi:s Z], as [Date.parse]
    gives it for an ISO string: whole days since 1970-01-01 in the proleptic
    Gregorian calendar, then hours, minutes, seconds, in milliseconds. *)
Definition daysFromCivil (y mo d : Z) : Z :=
  let y' := if (mo <=? 2)%Z then (y - 1)%Z else y in
  let era := (y' / 400)%Z in
  let yoe := (y' - era * 400)%Z in
  let mp := if (mo <=? 2)%Z then (mo + 9)%Z else (mo - 3)%Z in
  let doy := ((153 * mp + 2) / 5 + d - 1)%Z in
  let doe := (yoe * 365 + yoe / 4 - yoe / 100 + doy)%Z in
  (era * 146097 + doe - 719468)%Z.

Definition utcInstant (y mo d h mi s : Z) : Instant :=
  ((((daysFromCivil y mo d * 24 + h) * 60 + mi) * 60 + s) * 1000)%Z.

(** The hour angle that [sunVec_EarthFixed] computes on the way. *)
Definition hourAngle (d : Instant) : R :=
  let s := solarRAdecAndGMST d in n2 (GMST s - ra s).

Definition sunVec_EarthFixed (d : Instant) : Vector3 :=
  let s := solarRAdecAndGMST d in
  let Hg := n2 (GMST s - ra s) in
  let cosd := cos (dec s) in
  normalize (vec3 (cosd * cos Hg) (sin (dec s)) (cosd * sin Hg)).

(** ** Marker helpers *)

Definition DELHI_lat : R := 28.6139.
Definition DELHI_lon : R := 77.2088.
Definition GLOBE_RADIUS : R := 1.5.
Definition MARKER_HEIGHT : R := 0.017.

Definition latLonToVec3 (latDeg lonDeg r : R) : Vector3 :=
  let lat := degToRad latDeg in
  let lon := - degToRad lonDeg in
  let x := r * cos lat * cos lon in
  let y := r * sin lat in
  let z := r * cos lat * sin lon in
  vec3 x y z.

(** The pulsing scale that [GlowMarker] sets each frame from the clock. *)
Definition glowScale (t : R) : R := 1 + 0.25 * sin (t * 4).

(** ** Day/night blend: the fragment shader [earthFS] *)

Record Fragment : Type := frag { rgb : Vector3; alpha : R }.

Definition dayAmount (k : R) : R := GLSL.smoothstep (-0.15) 0.15 k.

Definition dayWeight (uAmbient k : R) : R :=
  uAmbient + dayAmount k * (1.0 - uAmbient).

Definition nightWeight (k : R) : R := (1.0 - dayAmount k) * 0.9.

(** A colour whose three channels lie in [0, 1]. *)
Definition unitChannels (c : Vector3) : Prop :=
  0 <= vx c <= 1 /\ 0 <= vy c <= 1 /\ 0 <= vz c <= 1.

(** [main()] of [earthFS], after the two texture fetches. *)
Definition earthFS (dayCol nightCol vNormalW uSunDir : Vector3)
  (uAmbient uGain : R) : Fragment :=
  let k := dot (GLSL.normalize vNormalW) (GLSL.normalize uSunDir) in
  let dayAmt := GLSL.smoothstep (-0.15) 0.15 k in
  let nightAmt := 1.0 - dayAmt in
  let wd := uAmbient + dayAmt * (1.0 - uAmbient) in
  let wn := nightAmt * 0.9 in
  frag (vec3 (vx dayCol * wd + vx nightCol * wn)
             (vy dayCol * wd + vy nightCol * wn)
             (vz dayCol * wd + vz nightCol * wn))
       uGain.

(** ** Orientation synchronizer: the per-frame update of [EarthSystem] *)

(** The objects the update reads and writes.  [sun_w] is the module-level
    [SUN_W] object, [base] the quaternion of the planet's root group (absent
    until the group is mounted), [clouds] the [rotation.y] of the cloud shell
    (absent likewise). *)
Record Earth : Type := mkEarth {
  sun_w : Vector3;
  base : option Quaternion;
  clouds : option R;
  introT : R;
  uGain : R;
  t0Real : Z;
  t0Sim : Z
}.

(** The cubic ease-out of the start-up fade. *)
Definition easeOutCubic (t : R) : R := 1.0 - (1.0 - t) ^ 3.

(** [new Date(t0Sim + (Date.now() - t0Real) * TIME_SCALE)]: the time value is
    truncated to an integer number of milliseconds. *)
Definition simInstant (st : Earth) (now : Z) : Instant :=
  JS.trunc (IZR (t0Sim st) + (IZR now - IZR (t0Real st)) * TIME_SCALE).

Section Frame.

Variable eps : R.

(** The rotation of one frame, from the simulated instant. *)
Definition planetOrientation (sunW : Vector3) (sim : Instant) : Quaternion :=
  setFromUnitVectors eps (sunVec_EarthFixed sim) sunW.

(** The [useFrame] callback of [EarthSystem]; [now] is [Date.now()] and [dt]
    the frame's time step in seconds. *)
Definition earthFrame (st : Earth) (now : Z) (dt : R) : Earth :=
  match base st with
  | None => st
  | Some _ =>
    let sim := simInstant st now in
    let q := planetOrientation (sun_w st) sim in
    let DURATION := 1.0 in
    let introT' := Rmin (introT st + dt) DURATION in
    let t := introT' / DURATION in
    mkEarth (sun_w st)
            (Some q)
            (match clouds st with
             | Some y => Some (y + OMEGA_CLOUD * dt * CLOUD_SPEED_MULTIPLIER)
             | None => None
             end)
            introT'
            (easeOutCubic t)
            (t0Real st)
            (t0Sim st)
  end.

(** A run of frames, each with its clock reading and time step. *)
Fixpoint earthFrames (st : Earth) (ticks : list (Z * R)) : Earth :=
  match ticks with
  | [] => st
  | (now, dt) :: rest => earthFrames (earthFrame st now dt) rest
  end.

End Frame.

(** The state at mount: [SUN_W] as configured, the groups mounted with the
    identity rotation, and the two readings of [Date.now()] that initialise
    [t0Real] and [t0Sim]. *)
Definition earthMounted (tReal tSim : Z) : Earth :=
  mkEarth SUN_W (Some (quat 0 0 0 1)) (Some 0) 0 0.0 tReal tSim.

(** The time covered by a run of frames, in seconds. *)
Fixpoint elapsed (ticks : list (Z * R)) : R :=
  match ticks with
  | [] => 0
  | (_, dt) :: rest => dt + elapsed rest
  end.

(** The state of the fade: the gain is the eased intro time, which is in
    [0, 1]; the group is mounted. *)
Definition fadeInvariant (st : Earth) : Prop :=
  base st <> None /\ 0 <= introT st <= 1
  /\ uGain st = easeOutCubic (introT st).

(** ** Sky dome fade *)

(** The intro time and the opacity of the dome's material, once mounted. *)
Record Sky : Type := mkSky { skyIntroT : R; skyOpacity : R }.

Definition skyFrame (opacity : R) (st : Sky) (dt : R) : Sky :=
  let introT' := Rmin (skyIntroT st + dt) 1.0 in
  let t := introT' / 1.0 in
  let eased := 1 - (1 - t) ^ 3 in
  mkSky introT' (lerp (skyOpacity st) (opacity * eased) 0.2).

(** ** Camera pilot *)

Record Camera : Type := mkCamera {
  position : Vector3;
  lookingAt : option Vector3
}.

(** The orbit controls as the pilot sees them: the [enabled] switch and, when
    the object has a [setLookAt] method, the pose last mirrored into it. *)
Record Controls : Type := mkControls {
  enabled : bool;
  hasSetLookAt : bool;
  mirrored : option (Vector3 * Vector3)
}.

Record Pilot : Type := mkPilot {
  startPos : option Vector3;
  endPos : option Vector3;
  lookAt : option Vector3;
  t0 : R;
  duration : R;
  flying : bool;
  faded : bool
}.

(** The pilot's refs together with the objects it acts on; [arrivals] counts
    the calls of [onArrive]. *)
Record Flight : Type := mkFlight {
  pilot : Pilot;
  camera : Camera;
  controls : option Controls;
  arrivals : nat
}.

Definition pilotInit : Pilot := mkPilot None None None 0 1.2 false false.

Definition ARRIVAL_THRESHOLD : R := 0.65.

(** The duration of a flight over distance [d]. *)
Definition flightDuration (d : R) : R := clamp (0.7 + d * 0.35) 1.0 3.0.

(** The effect on [targetPoint]; [now] is [performance.now()]. *)
Definition setTarget (w : Flight) (targetPoint : option Vector3) (now : R)
  : Flight :=
  match targetPoint with
  | None => w
  | Some p =>
    let n := normalize p in
    let e := multiplyScalar n (GLOBE_RADIUS + 0.09) in
    let s := position (camera w) in
    let d := distanceTo s e in
    mkFlight
      (mkPilot (Some s) (Some e) (Some p) now (flightDuration d) true false)
      (camera w)
      (match controls w with
       | Some c => Some (mkControls false (hasSetLookAt c) (mirrored c))
       | None => None
       end)
      (arrivals w)
  end.

(** The eased progress of the flight at raw progress [t]. *)
Definition ease (t : R) : R :=
  if Rle_dec t 0 then 0 else if Rle_dec 1 t then 1 else t * t * (3 - 2 * t).

(** The [useFrame] callback of [CameraPilot]; [now] is [performance.now()]. *)
Definition pilotFrame (w : Flight) (now : R) : Flight :=
  let p := pilot w in
  match flying p, startPos p, endPos p, lookAt p with
  | true, Some s, Some e', Some l =>
    let t := (now - t0 p) / (duration p * 1000) in
    let e := ease t in
    let pos := lerpVectors s e' e in
    let cam := mkCamera pos (Some l) in
    let ctrls :=
      match controls w with
      | Some c =>
        if hasSetLookAt c
        then Some (mkControls (enabled c) true (Some (pos, l)))
        else Some c
      | None => None
      end in
    let dist := distanceTo pos e' in
    let fire :=
      if faded p then false
      else if Rlt_dec dist ARRIVAL_THRESHOLD then true else false in
    let flying' := if Rle_dec 1 e then false else true in
    mkFlight
      (mkPilot (startPos p) (endPos p) (lookAt p) (t0 p) (duration p)
               flying' (if fire then true else faded p))
      cam ctrls
      (if fire then S (arrivals w) else arrivals w)
  | _, _, _, _ => w
  end.

(** Whether the update at [now] calls [onArrive]. *)
Definition fires (w : Flight) (now : R) : bool :=
  Nat.ltb (arrivals w) (arrivals (pilotFrame w now)).

Fixpoint pilotFrames (w : Flight) (nows : list R) : Flight :=
  match nows with
  | [] => w
  | now :: rest => pilotFrames (pilotFrame w now) rest
  end.

(** The calls of [onArrive] along a run of updates, one flag per update. *)
Fixpoint fireTrace (w : Flight) (nows : list R) : list bool :=
  match nows with
  | [] => []
  | now :: rest => fires w now :: fireTrace (pilotFrame w now) rest
  end.

(** The refs of a pilot in flight. *)
Definition inFlight (w : Flight) (s e l : Vector3) : Prop :=
  flying (pilot w) = true /\ startPos (pilot w) = Some s /\
  endPos (pilot w) = Some e /\ lookAt (pilot w) = Some l.

(** Whether the camera stands within the arrival threshold of the flight's
    end position. *)
Definition withinThreshold (w : Flight) : bool :=
  match endPos (pilot w) with
  | Some e =>
    if Rlt_dec (distanceTo (position (camera w)) e) ARRIVAL_THRESHOLD
    then true else false
  | None => false
  end.

(** For each update of a run, whether it leaves the camera within the
    threshold. *)
Fixpoint closeTrace (w : Flight) (nows : list R) : list bool :=
  match nows with
  | [] => []
  | now :: rest =>
    withinThreshold (pilotFrame w now) :: closeTrace (pilotFrame w now) rest
  end.

(** Keeps the first [true] of a list and clears every later one. *)
Fixpoint firstOnly (l : list bool) : list bool :=
  match l with
  | [] => []
  | true :: rest => true :: map (fun _ => false) rest
  | false :: rest => false :: firstOnly rest
  end.

(** The scene at start-up: the camera at the canvas position, the pilot's
    refs at their initial values, no arrival yet. *)
Definition sceneInit (c : option Controls) : Flight :=
  mkFlight pilotInit (mkCamera (vec3 0 0 4.2) None) c 0.

(** ** Marker click *)

(** [onMarkerClick]: the marker's surface point, carried to world space by
    [localToWorld] of the planet group.  The group's own rotation is the
    identity ([TEXTURE_LON0_DEG] and [AXIAL_TILT_DEG] are 0), so its world
    matrix is the rotation of the root group's unit quaternion, which acts on
    a vector as [applyQuaternion] does; without a mounted planet the point
    stays local. *)
Definition onMarkerClick (markerVec : Vector3) (planet : option Quaternion)
  : Vector3 :=
  let surfaceLocal := setLength markerVec GLOBE_RADIUS in
  match planet with
  | Some q => applyQuaternion surfaceLocal q
  | None => surfaceLocal
  end.

(** ** Marker placement: device location with IP-based fallback *)

(** The marker before any location is known. *)
Definition markerInit : Vector3 :=
  latLonToVec3 DELHI_lat DELHI_lon (GLOBE_RADIUS + MARKER_HEIGHT).

(** What [navigator.geolocation.getCurrentPosition] ends in: a position, a
    refusal or error, or no callback at all. *)
Inductive GeoOutcome : Type :=
| GpsFix (latitude longitude : R)
| GpsDenied
| GpsSilent.

(** The fields of the IP lookup's JSON that the code reads; a field may be
    missing. *)
Record IpData : Type := mkIpData {
  ipLatitude : option R;
  ipLongitude : option R
}.

(** What the lookup ends in: a parsed body (possibly [null]) or a failure
    caught by [.catch]. *)
Inductive IpOutcome : Type :=
| IpJson (data : option IpData)
| IpFailed.

(** Truthiness of a possibly missing number: missing and 0 are falsy. *)
Definition truthy (x : option R) : bool :=
  match x with
  | Some v => if Req_dec_T v 0 then false else true
  | None => false
  end.

(** The [.then] handler of the lookup:
    [if (data && data.latitude && data.longitude) setMarkerVec(...)]. *)
Definition ipFallback (markerVec : Vector3) (ip : IpOutcome) : Vector3 :=
  match ip with
  | IpJson (Some data) =>
    match ipLatitude data, ipLongitude data with
    | Some la, Some lo =>
      if truthy (Some la) && truthy (Some lo)
      then latLonToVec3 la lo (GLOBE_RADIUS + MARKER_HEIGHT)
      else markerVec
    | _, _ => markerVec
    end
  | IpJson None => markerVec
  | IpFailed => markerVec
  end.

(** The geolocation effect of [GlobeScene]: the device position when there is
    one, the IP lookup when the API is missing or refuses. *)
Definition locateMarker (hasGeolocation : bool) (gps : GeoOutcome)
  (ip : IpOutcome) (markerVec : Vector3) : Vector3 :=
  if hasGeolocation then
    match gps with
    | GpsFix la lo => latLonToVec3 la lo (GLOBE_RADIUS + MARKER_HEIGHT)
    | GpsDenied => ipFallback markerVec ip
    | GpsSilent => markerVec
    end
  else ipFallback markerVec ip.

(** ** The fade overlay of [GlobeScene] *)

Inductive FadeStage : Type := hidden | fadeIn | black.

(** What can happen to the overlay: the pilot's [onArrive], and the end of the
    overlay's animation, which only a mounted overlay reports. *)
Inductive FadeEvent : Type := Arrive | AnimationComplete.

Definition fadeStep (st : FadeStage) (ev : FadeEvent) : FadeStage :=
  match ev with
  | Arrive => fadeIn
  | AnimationComplete =>
    match st with
    | hidden => hidden
    | _ => black
    end
  end.

Definition fadeRun (st : FadeStage) (evs : list FadeEvent) : FadeStage :=
  fold_left fadeStep evs st.

(** ** Camera and zoom limits *)

Definition EARTH_OUTER_RADIUS : R := 1.525.
Definition CAMERA_FOV_DEG : R := 55.
Definition MIN_DIST_FILL : R :=
  EARTH_OUTER_RADIUS / tan (degToRad (CAMERA_FOV_DEG / 2)) * 0.75.
Definition MAX_DIST_NICE : R := 12.

(** * Properties *)

(** ** Remainder and angle reduction *)

Lemma trunc_nonneg (x : R) : 0 <= x -> JS.trunc x = Zfloor x.
Proof. intros H. unfold JS.trunc. destruct (Rle_dec 0 x); [reflexivity | contradiction]. Qed.

Lemma trunc_neg (x : R) : x < 0 -> JS.trunc x = Zceil x.
Proof. intros H. unfold JS.trunc. destruct (Rle_dec 0 x); [lra | reflexivity]. Qed.

Lemma quotient_scale (n d : R) : 0 < d -> d * (n / d) = n.
Proof. intros Hd. field. lra. Qed.

Lemma quotient_sign_nonneg (n d : R) : 0 < d -> 0 <= n -> 0 <= n / d.
Proof.
intros Hd Hn. unfold Rdiv. apply Rmult_le_pos; [exact Hn|].
left. apply Rinv_0_lt_compat. exact Hd.
Qed.

Lemma quotient_sign_neg (n d : R) : 0 < d -> n < 0 -> n / d < 0.
Proof.
intros Hd Hn. unfold Rdiv.
assert (0 < / d) by (apply Rinv_0_lt_compat; exact Hd).
nra.
Qed.

(** A non-negative dividend leaves a remainder in [0, d). *)
Lemma rem_nonneg (n d : R) : 0 < d -> 0 <= n -> 0 <= JS.rem n d < d.
Proof.
intros Hd Hn. unfold JS.rem.
rewrite trunc_nonneg by (apply quotient_sign_nonneg; assumption).
pose proof (Zfloor_bound (n / d)) as [Hlo Hhi].
pose proof (quotient_scale n d Hd) as Hq.
split; nra.
Qed.

(** A negative dividend leaves a remainder in (-d, 0]. *)
Lemma rem_neg (n d : R) : 0 < d -> n < 0 -> - d < JS.rem n d <= 0.
Proof.
intros Hd Hn. unfold JS.rem.
rewrite trunc_neg by (apply quotient_sign_neg; assumption).
pose proof (Zceil_bound (n / d)) as [Hlo Hhi].
pose proof (quotient_scale n d Hd) as Hq.
split; nra.
Qed.

Lemma rem_abs_lt (n d : R) : 0 < d -> - d < JS.rem n d < d.
Proof.
intros Hd. destruct (Rle_lt_dec 0 n) as [Hn|Hn].
- pose proof (rem_nonneg n d Hd Hn). lra.
- pose proof (rem_neg n d Hd Hn). lra.
Qed.

(** The remainder differs from the dividend by a whole multiple of [d]. *)
Lemma rem_congruent (n d : R) : exists k : Z, JS.rem n d = n + IZR k * d.
Proof.
exists (- JS.trunc (n / d))%Z. unfold JS.rem. rewrite opp_IZR. ring.
Qed.

Lemma two_PI_pos : 0 < 2 * PI.
Proof. pose proof PI_RGT_0. lra. Qed.

(** [n2] is the floor-style reduction modulo [2 PI]. *)
Lemma n2_floor (a : R) : n2 a = a - 2 * PI * IZR (Zfloor (a / (2 * PI))).
Proof.
pose proof two_PI_pos as Hd.
unfold n2. cbv zeta.
destruct (Rle_lt_dec 0 a) as [Ha|Ha].
- pose proof (rem_nonneg a _ Hd Ha) as [Hlo _].
  destruct (Rlt_dec (JS.rem a (2 * PI)) 0) as [Hr|_]; [lra|].
  unfold JS.rem. rewrite trunc_nonneg by (apply quotient_sign_nonneg; assumption).
  reflexivity.
- pose proof (quotient_sign_neg a _ Hd Ha) as Hq.
  pose proof (quotient_scale a _ Hd) as Hs.
  pose proof (Zceil_bound (a / (2 * PI))) as [Hlo Hhi].
  unfold JS.rem. rewrite (trunc_neg _ Hq).
  destruct (Rlt_dec _ 0) as [Hr|Hr].
  + assert (Hf : Zfloor (a / (2 * PI)) = (Zceil (a / (2 * PI)) - 1)%Z).
    { apply Zfloor_eq. rewrite minus_IZR. split; [lra|]. nra. }
    rewrite Hf, minus_IZR. ring.
  + assert (Hf : Zfloor (a / (2 * PI)) = Zceil (a / (2 * PI))).
    { apply Zfloor_eq. split; [nra|lra]. }
    rewrite Hf. reflexivity.
Qed.

Lemma n2_range (a : R) : 0 <= n2 a < 2 * PI.
Proof.
pose proof two_PI_pos as Hd.
rewrite n2_floor.
pose proof (Zfloor_bound (a / (2 * PI))) as [Hlo Hhi].
pose proof (quotient_scale a _ Hd) as Hs.
split; nra.
Qed.

Lemma n2_period (a : R) (k : Z) : n2 (a + 2 * PI * IZR k) = n2 a.
Proof.
pose proof two_PI_pos as Hd.
rewrite !n2_floor.
replace ((a + 2 * PI * IZR k) / (2 * PI)) with (a / (2 * PI) + IZR k)
  by (field; lra).
rewrite Zfloor_addz, plus_IZR. ring.
Qed.

(** C5: [n2] maps every real into [0, 2 PI) and is invariant under adding any
    whole multiple of [2 PI]. *)
Theorem n2_range_and_period :
  (forall a : R, 0 <= n2 a < 2 * PI) /\
  (forall (a : R) (k : Z), n2 (a + 2 * PI * IZR k) = n2 a).
Proof. split; [exact n2_range | exact n2_period]. Qed.

(** ** Vectors *)

Lemma lengthSq_nonneg (v : Vector3) : 0 <= lengthSq v.
Proof. unfold lengthSq. nra. Qed.

Lemma length_nonneg (v : Vector3) : 0 <= length v.
Proof. apply sqrt_pos. Qed.

Lemma length_sqr (v : Vector3) : length v * length v = lengthSq v.
Proof. apply sqrt_sqrt, lengthSq_nonneg. Qed.

Lemma lengthSq_multiplyScalar (v : Vector3) (s : R) :
  lengthSq (multiplyScalar v s) = s * s * lengthSq v.
Proof. unfold lengthSq, multiplyScalar. simpl. ring. Qed.

Lemma length_multiplyScalar (v : Vector3) (s : R) :
  0 <= s -> length (multiplyScalar v s) = s * length v.
Proof.
intros Hs. unfold length. rewrite lengthSq_multiplyScalar.
rewrite sqrt_mult_alt by nra. rewrite sqrt_square by exact Hs. reflexivity.
Qed.

(** Normalizing a vector of non-zero length gives a vector of length 1. *)
Lemma normalize_unit (v : Vector3) : length v <> 0 -> length (normalize v) = 1.
Proof.
intros Hv. unfold normalize, divideScalar.
destruct (Req_dec_T (length v) 0) as [E|_]; [contradiction|].
pose proof (length_nonneg v) as Hp.
rewrite length_multiplyScalar.
- field. exact Hv.
- unfold Rdiv. rewrite Rmult_1_l. left. apply Rinv_0_lt_compat. lra.
Qed.

(** Normalizing a vector of length 1 leaves it as it is. *)
Lemma normalize_of_unit (v : Vector3) : length v = 1 -> normalize v = v.
Proof.
intros Hv. unfold normalize, divideScalar, multiplyScalar. rewrite Hv.
destruct (Req_dec_T 1 0) as [E|_]; [lra|].
destruct v as [x y z]. simpl. f_equal; field.
Qed.

Lemma spherical_unit (a b : R) :
  length (vec3 (cos a * cos b) (sin a) (cos a * sin b)) = 1.
Proof.
unfold length, lengthSq. simpl.
replace (cos a * cos b * (cos a * cos b) + sin a * sin a
         + cos a * sin b * (cos a * sin b)) with 1.
- apply sqrt_1.
- pose proof (sin2_cos2 a) as Ha. pose proof (sin2_cos2 b) as Hb.
  unfold Rsqr in Ha, Hb. nra.
Qed.

Lemma sunVec_EarthFixed_length (d : Instant) : length (sunVec_EarthFixed d) = 1.
Proof.
unfold sunVec_EarthFixed. cbv zeta.
rewrite normalize_of_unit; apply spherical_unit.
Qed.

(** C1: for every instant the earth-fixed sun direction has Euclidean norm 1. *)
Theorem sunVec_EarthFixed_unit (d : Instant) : length (sunVec_EarthFixed d) = 1.
Proof. exact (sunVec_EarthFixed_length d). Qed.

(** The sun direction is the spherical point of declination and hour angle:
    the final [normalize()] changes nothing. *)
Lemma sunVec_EarthFixed_components (d : Instant) :
  sunVec_EarthFixed d =
  vec3 (cos (dec (solarRAdecAndGMST d)) * cos (hourAngle d))
       (sin (dec (solarRAdecAndGMST d)))
       (cos (dec (solarRAdecAndGMST d)) * sin (hourAngle d)).
Proof.
unfold sunVec_EarthFixed, hourAngle. cbv zeta.
apply normalize_of_unit, spherical_unit.
Qed.

(** ** Clamping and the smoothstep curve *)

Lemma clamp_range (v lo hi : R) : lo <= hi -> lo <= clamp v lo hi <= hi.
Proof.
intros H. unfold clamp, Rmax, Rmin.
repeat destruct (Rle_dec _ _); lra.
Qed.

Lemma clamp_inside (v lo hi : R) : lo <= v <= hi -> clamp v lo hi = v.
Proof.
intros H. unfold clamp, Rmax, Rmin.
repeat destruct (Rle_dec _ _); lra.
Qed.

Lemma clamp_below (v lo hi : R) : lo <= hi -> v <= lo -> clamp v lo hi = lo.
Proof.
intros H1 H2. unfold clamp, Rmax, Rmin.
repeat destruct (Rle_dec _ _); lra.
Qed.

Lemma clamp_above (v lo hi : R) : lo <= hi -> hi <= v -> clamp v lo hi = hi.
Proof.
intros H1 H2. unfold clamp, Rmax, Rmin.
repeat destruct (Rle_dec _ _); lra.
Qed.

Lemma glsl_clamp01_range (x : R) : 0 <= GLSL.clamp x 0 1 <= 1.
Proof.
unfold GLSL.clamp, Rmax, Rmin. repeat destruct (Rle_dec _ _); lra.
Qed.

Lemma glsl_clamp01_mono (x y : R) :
  x <= y -> GLSL.clamp x 0 1 <= GLSL.clamp y 0 1.
Proof.
intros H. unfold GLSL.clamp, Rmax, Rmin. repeat destruct (Rle_dec _ _); lra.
Qed.

Lemma glsl_clamp01_lipschitz (x y : R) :
  x <= y -> GLSL.clamp y 0 1 - GLSL.clamp x 0 1 <= y - x.
Proof.
intros H. unfold GLSL.clamp, Rmax, Rmin. repeat destruct (Rle_dec _ _); lra.
Qed.

(** The Hermite cubic is non-decreasing on [0, 1] ... *)
Lemma hermite_mono (s t : R) :
  0 <= s -> s <= t -> t <= 1 -> s * s * (3 - 2 * s) <= t * t * (3 - 2 * t).
Proof.
intros H0 Hst H1.
assert (E : t * t * (3 - 2 * t) - s * s * (3 - 2 * s)
            = (t - s) * (3 * (t + s) - 2 * (t * t + t * s + s * s))) by ring.
assert (0 <= 3 * (t + s) - 2 * (t * t + t * s + s * s)) by nra.
assert (0 <= (t - s) * (3 * (t + s) - 2 * (t * t + t * s + s * s)))
  by (apply Rmult_le_pos; lra).
lra.
Qed.

(** ... and its slope there is at most 3/2. *)
Lemma hermite_lipschitz (s t : R) :
  0 <= s -> s <= t -> t <= 1 ->
  t * t * (3 - 2 * t) - s * s * (3 - 2 * s) <= 3 / 2 * (t - s).
Proof.
intros H0 Hst H1.
assert (E : t * t * (3 - 2 * t) - s * s * (3 - 2 * s)
            = (t - s) * (3 * (t + s) - 2 * (t * t + t * s + s * s))) by ring.
assert (3 * (t + s) - 2 * (t * t + t * s + s * s) <= 3 / 2).
{ pose proof (Rle_0_sqr (t - s)) as Q1. pose proof (Rle_0_sqr (t + s - 1)) as Q2.
  unfold Rsqr in Q1, Q2. lra. }
rewrite E. rewrite (Rmult_comm (3 / 2)).
apply Rmult_le_compat_l; lra.
Qed.

Lemma hermite_range (t : R) : 0 <= t <= 1 -> 0 <= t * t * (3 - 2 * t) <= 1.
Proof.
intros [H0 H1]. split.
- apply Rmult_le_pos; nra.
- pose proof (hermite_mono t 1 H0 H1 (Rle_refl 1)). lra.
Qed.

Lemma dayAmount_range (k : R) : 0 <= dayAmount k <= 1.
Proof.
unfold dayAmount, GLSL.smoothstep. cbv zeta.
apply hermite_range, glsl_clamp01_range.
Qed.

Lemma band_ratio_mono (a b : R) :
  a <= b -> (a - -0.15) / (0.15 - -0.15) <= (b - -0.15) / (0.15 - -0.15).
Proof. intros H. lra. Qed.

Lemma dayAmount_mono (a b : R) : a <= b -> dayAmount a <= dayAmount b.
Proof.
intros H. unfold dayAmount, GLSL.smoothstep. cbv zeta.
apply hermite_mono.
- apply glsl_clamp01_range.
- apply glsl_clamp01_mono, band_ratio_mono, H.
- apply glsl_clamp01_range.
Qed.

(** Across the whole line the day fraction changes at most 5 times as fast
    as the cosine [k]. *)
Lemma dayAmount_lipschitz (a b : R) :
  a <= b -> dayAmount b - dayAmount a <= 5 * (b - a).
Proof.
intros H. unfold dayAmount, GLSL.smoothstep. cbv zeta.
set (ta := GLSL.clamp ((a - -0.15) / (0.15 - -0.15)) 0 1).
set (tb := GLSL.clamp ((b - -0.15) / (0.15 - -0.15)) 0 1).
assert (Hab : ta <= tb) by (apply glsl_clamp01_mono, band_ratio_mono, H).
pose proof (glsl_clamp01_range ((a - -0.15) / (0.15 - -0.15))) as [Ha0 _].
pose proof (glsl_clamp01_range ((b - -0.15) / (0.15 - -0.15))) as [_ Hb1].
fold ta in Ha0. fold tb in Hb1.
pose proof (hermite_lipschitz ta tb Ha0 Hab Hb1) as HL.
pose proof (glsl_clamp01_lipschitz _ _ (band_ratio_mono a b H)) as HC.
fold ta tb in HC.
lra.
Qed.

Lemma dayAmount_dist (a b : R) : Rabs (dayAmount b - dayAmount a) <= 5 * Rabs (b - a).
Proof.
destruct (Rle_lt_dec a b) as [H|H].
- pose proof (dayAmount_mono a b H). pose proof (dayAmount_lipschitz a b H).
  rewrite !Rabs_right by lra. lra.
- assert (H' : b <= a) by lra.
  pose proof (dayAmount_mono b a H'). pose proof (dayAmount_lipschitz b a H').
  rewrite !Rabs_left1 by lra. lra.
Qed.

Lemma dayAmount_continuous : continuity dayAmount.
Proof.
intros x. unfold continuity_pt, continue_in, limit1_in, limit_in.
intros e He. exists (e / 5). split; [lra|].
intros y [_ Hy]. simpl in *. unfold Rdist in *.
pose proof (dayAmount_dist x y). lra.
Qed.

(** C8: the day fraction is 1 facing the sun, 0 facing away, continuous and
    non-decreasing in [k] on the whole line, the band [-0.15, 0.15] included. *)
Theorem dayAmount_profile :
  dayAmount 1 = 1 /\ dayAmount (-1) = 0 /\
  continuity dayAmount /\
  (forall a b : R, a <= b -> dayAmount a <= dayAmount b).
Proof.
repeat split.
- unfold dayAmount, GLSL.smoothstep, GLSL.clamp, Rmax, Rmin.
  repeat destruct (Rle_dec _ _); lra.
- unfold dayAmount, GLSL.smoothstep, GLSL.clamp, Rmax, Rmin.
  repeat destruct (Rle_dec _ _); lra.
- exact dayAmount_continuous.
- exact dayAmount_mono.
Qed.

(** ** Blend weights *)

Lemma weights_sum (k : R) : dayWeight AMBIENT k + nightWeight k = 1.
Proof. unfold dayWeight, nightWeight, AMBIENT. lra. Qed.

Lemma dayWeight_range (k : R) : AMBIENT <= dayWeight AMBIENT k <= 1.
Proof.
pose proof (dayAmount_range k). unfold dayWeight, AMBIENT. lra.
Qed.

Lemma nightWeight_range (k : R) : 0 <= nightWeight k <= 0.9.
Proof.
pose proof (dayAmount_range k). unfold nightWeight. lra.
Qed.

Lemma convex_channel (a b wa wb : R) :
  0 <= a <= 1 -> 0 <= b <= 1 -> 0 <= wa -> 0 <= wb -> wa + wb = 1 ->
  0 <= a * wa + b * wb <= 1.
Proof. intros. nra. Qed.

Lemma earthFS_weights (dayCol nightCol n s : Vector3) (a g : R) :
  let k := dot (GLSL.normalize n) (GLSL.normalize s) in
  rgb (earthFS dayCol nightCol n s a g) =
  vec3 (vx dayCol * dayWeight a k + vx nightCol * nightWeight k)
       (vy dayCol * dayWeight a k + vy nightCol * nightWeight k)
       (vz dayCol * dayWeight a k + vz nightCol * nightWeight k).
Proof. reflexivity. Qed.

(** C10: with the shipped ambient level the two texture weights are
    non-negative and sum to 1 for every [k], so each output channel of the
    shader lies in [0, 1] whenever the day and night texels do. *)
Theorem blend_convex :
  (forall k : R, dayWeight AMBIENT k + nightWeight k = 1
                 /\ 0 <= dayWeight AMBIENT k /\ 0 <= nightWeight k) /\
  (forall (dayCol nightCol n s : Vector3) (g : R),
     unitChannels dayCol -> unitChannels nightCol ->
     unitChannels (rgb (earthFS dayCol nightCol n s AMBIENT g))).
Proof.
assert (W : forall k, dayWeight AMBIENT k + nightWeight k = 1
                      /\ 0 <= dayWeight AMBIENT k /\ 0 <= nightWeight k).
{ intros k. pose proof (dayWeight_range k). pose proof (nightWeight_range k).
  pose proof (weights_sum k). unfold AMBIENT in *. lra. }
split; [exact W|].
intros dayCol nightCol n s g (Dx & Dy & Dz) (Nx & Ny & Nz).
rewrite earthFS_weights. cbv zeta.
destruct (W (dot (GLSL.normalize n) (GLSL.normalize s))) as (Hs & Hd & Hn).
unfold unitChannels. simpl.
split; [|split]; apply convex_channel; assumption.
Qed.

Lemma blend_convex_witness :
  unitChannels
    (rgb (earthFS (vec3 1 0.5 0) (vec3 0 0.25 1) (vec3 0 1 0) (vec3 0 0 1)
                  AMBIENT 1)).
Proof.
apply (proj2 blend_convex); unfold unitChannels; simpl; lra.
Defined.

(** ** Flight duration *)

Lemma flightDuration_range (d : R) : 1 <= flightDuration d <= 3.
Proof.
unfold flightDuration.
pose proof (clamp_range (0.7 + d * 0.35) 1.0 3.0 ltac:(lra)). lra.
Qed.

Lemma flightDuration_pos (d : R) : 0 < flightDuration d.
Proof. pose proof (flightDuration_range d). lra. Qed.

(** The end position of a flight towards [p]: the standoff point above it. *)
Lemma setTarget_endPos (w : Flight) (p : Vector3) (now : R) :
  endPos (pilot (setTarget w (Some p) now))
  = Some (multiplyScalar (normalize p) (GLOBE_RADIUS + 0.09)).
Proof. reflexivity. Qed.

(** C7: a flight that starts gets the duration
    [clamp(0.7 + 0.35 * distance(start, end), 1, 3)], which is 1 at distance 0
    and 3 from distance 46/7 on. *)
Theorem flight_duration_clamped :
  (forall (w : Flight) (p : Vector3) (now : R),
     let s := position (camera w) in
     let e := multiplyScalar (normalize p) (GLOBE_RADIUS + 0.09) in
     startPos (pilot (setTarget w (Some p) now)) = Some s /\
     endPos (pilot (setTarget w (Some p) now)) = Some e /\
     duration (pilot (setTarget w (Some p) now))
     = clamp (0.7 + 0.35 * distanceTo s e) 1 3 /\
     (distanceTo s e = 0 -> duration (pilot (setTarget w (Some p) now)) = 1) /\
     (46 / 7 <= distanceTo s e ->
      duration (pilot (setTarget w (Some p) now)) = 3)).
Proof.
intros w p now s e.
assert (D : duration (pilot (setTarget w (Some p) now))
            = clamp (0.7 + 0.35 * distanceTo s e) 1 3).
{ simpl. unfold flightDuration. fold s e. unfold clamp. f_equal; [lra|].
  f_equal; lra. }
repeat split.
- exact D.
- intros H0. rewrite D, H0. apply clamp_below; lra.
- intros H. rewrite D. apply clamp_above; lra.
Qed.

(** ** Camera pilot *)

Lemma distanceTo_nonneg (a b : Vector3) : 0 <= distanceTo a b.
Proof. apply sqrt_pos. Qed.

Lemma distanceTo_self (a : Vector3) : distanceTo a a = 0.
Proof.
unfold distanceTo, distanceToSquared. cbv zeta.
replace ((vx a - vx a) * (vx a - vx a) + (vy a - vy a) * (vy a - vy a)
         + (vz a - vz a) * (vz a - vz a)) with 0 by ring.
apply sqrt_0.
Qed.

Lemma lerpVectors_0 (s e : Vector3) : lerpVectors s e 0 = s.
Proof. destruct s, e. unfold lerpVectors. simpl. f_equal; ring. Qed.

Lemma lerpVectors_1 (s e : Vector3) : lerpVectors s e 1 = e.
Proof. destruct s, e. unfold lerpVectors. simpl. f_equal; ring. Qed.

(** Along the segment the distance left to the end shrinks linearly. *)
Lemma distanceTo_lerp (s e : Vector3) (a : R) :
  a <= 1 -> distanceTo (lerpVectors s e a) e = (1 - a) * distanceTo s e.
Proof.
intros Ha. unfold distanceTo, distanceToSquared, lerpVectors. simpl.
replace ((vx s + (vx e - vx s) * a - vx e) * (vx s + (vx e - vx s) * a - vx e)
         + (vy s + (vy e - vy s) * a - vy e) * (vy s + (vy e - vy s) * a - vy e)
         + (vz s + (vz e - vz s) * a - vz e) * (vz s + (vz e - vz s) * a - vz e))
  with ((1 - a) * (1 - a)
        * ((vx s - vx e) * (vx s - vx e) + (vy s - vy e) * (vy s - vy e)
           + (vz s - vz e) * (vz s - vz e))) by ring.
rewrite sqrt_mult_alt by nra.
rewrite sqrt_square by lra. reflexivity.
Qed.

Lemma ease_range (t : R) : 0 <= ease t <= 1.
Proof.
unfold ease. destruct (Rle_dec t 0); [lra|].
destruct (Rle_dec 1 t); [lra|].
apply hermite_range. lra.
Qed.

Lemma ease_done (t : R) : 1 <= t -> ease t = 1.
Proof.
intros H. unfold ease. destruct (Rle_dec t 0); [lra|].
destruct (Rle_dec 1 t); [reflexivity|lra].
Qed.

Lemma ease_mono (s t : R) : s <= t -> ease s <= ease t.
Proof.
intros H.
destruct (Rle_lt_dec s 0) as [Hs|Hs].
- replace (ease s) with 0; [apply ease_range|].
  unfold ease. destruct (Rle_dec s 0); [reflexivity|lra].
- destruct (Rle_lt_dec 1 t) as [Ht|Ht].
  + rewrite (ease_done t Ht). apply ease_range.
  + unfold ease.
    destruct (Rle_dec s 0); [lra|]. destruct (Rle_dec t 0); [lra|].
    destruct (Rle_dec 1 s); [lra|]. destruct (Rle_dec 1 t); [lra|].
    apply hermite_mono; lra.
Qed.


Ltac open_flight w H :=
  destruct w as [[sp ep la st du fl fa] cam ctl arr];
  unfold inFlight in H; simpl in H;
  destruct H as (-> & -> & -> & ->).

(** The eased progress of the update at [now]. *)
Lemma pilotFrame_refs (w : Flight) (now : R) :
  startPos (pilot (pilotFrame w now)) = startPos (pilot w) /\
  endPos (pilot (pilotFrame w now)) = endPos (pilot w) /\
  lookAt (pilot (pilotFrame w now)) = lookAt (pilot w) /\
  t0 (pilot (pilotFrame w now)) = t0 (pilot w) /\
  duration (pilot (pilotFrame w now)) = duration (pilot w).
Proof.
destruct w as [[sp ep la st du fl fa] cam ctl arr]. unfold pilotFrame. simpl.
destruct fl, sp, ep, la; simpl; repeat split; reflexivity.
Qed.

(** A parked pilot ignores the frame. *)
Lemma pilotFrame_parked (w : Flight) (now : R) :
  flying (pilot w) = false -> pilotFrame w now = w.
Proof.
destruct w as [[sp ep la st du fl fa] cam ctl arr]. simpl. intros ->.
reflexivity.
Qed.

Lemma pilotFrame_position (w : Flight) (s e l : Vector3) (now : R) :
  inFlight w s e l ->
  position (camera (pilotFrame w now))
  = lerpVectors s e (ease ((now - t0 (pilot w)) / (duration (pilot w) * 1000))).
Proof. intros H. open_flight w H. reflexivity. Qed.

(** The update calls [onArrive] exactly when the flag is still down and the
    new camera position is within the threshold of the end position. *)
Lemma pilotFrame_fires (w : Flight) (s e l : Vector3) (now : R) :
  inFlight w s e l ->
  fires w now = negb (faded (pilot w)) && withinThreshold (pilotFrame w now).
Proof.
intros H. open_flight w H. unfold fires, withinThreshold, pilotFrame. simpl.
destruct fa; simpl.
- apply Nat.ltb_irrefl.
- destruct (Rlt_dec _ ARRIVAL_THRESHOLD); simpl.
  + apply Nat.ltb_lt. lia.
  + apply Nat.ltb_irrefl.
Qed.

Lemma pilotFrame_faded (w : Flight) (s e l : Vector3) (now : R) :
  inFlight w s e l ->
  faded (pilot (pilotFrame w now)) = faded (pilot w) || fires w now.
Proof.
intros H. open_flight w H. unfold fires, pilotFrame. simpl.
destruct fa; simpl; [reflexivity|].
destruct (Rlt_dec _ ARRIVAL_THRESHOLD); simpl; symmetry.
- apply Nat.ltb_lt. lia.
- apply Nat.ltb_irrefl.
Qed.

Lemma pilotFrame_arrivals (w : Flight) (now : R) :
  arrivals (pilotFrame w now)
  = (arrivals w + if fires w now then 1 else 0)%nat.
Proof.
unfold fires.
destruct w as [[sp ep la st du fl fa] cam ctl arr]. unfold pilotFrame. simpl.
destruct fl, sp, ep, la; simpl; try (rewrite Nat.ltb_irrefl; lia).
destruct fa; simpl; try (rewrite Nat.ltb_irrefl; lia).
destruct (Rlt_dec _ ARRIVAL_THRESHOLD); simpl.
- replace (arr <? S arr)%nat with true by (symmetry; apply Nat.ltb_lt; lia). lia.
- rewrite Nat.ltb_irrefl. lia.
Qed.

Lemma pilotFrame_flying (w : Flight) (s e l : Vector3) (now : R) :
  inFlight w s e l ->
  flying (pilot (pilotFrame w now))
  = if Rle_dec 1 (ease ((now - t0 (pilot w)) / (duration (pilot w) * 1000)))
    then false else true.
Proof. intros H. open_flight w H. reflexivity. Qed.

(** When the eased progress reaches 1 the camera is at the end position,
    hence within the threshold. *)
Lemma pilotFrame_done_close (w : Flight) (s e l : Vector3) (now : R) :
  inFlight w s e l ->
  flying (pilot (pilotFrame w now)) = false ->
  withinThreshold (pilotFrame w now) = true.
Proof.
intros H Hf.
rewrite (pilotFrame_flying w s e l now H) in Hf.
destruct (Rle_dec 1 _) as [H1|H1]; [|discriminate].
unfold withinThreshold.
destruct (pilotFrame_refs w now) as (_ & -> & _).
rewrite (pilotFrame_position w s e l now H).
destruct H as (_ & _ & -> & _).
pose proof (ease_range ((now - t0 (pilot w)) / (duration (pilot w) * 1000))) as [_ Hle].
replace (ease _) with 1 by lra.
rewrite lerpVectors_1, distanceTo_self.
unfold ARRIVAL_THRESHOLD. destruct (Rlt_dec 0 0.65); [reflexivity|lra].
Qed.

Lemma inFlight_step (w : Flight) (s e l : Vector3) (now : R) :
  inFlight w s e l ->
  flying (pilot (pilotFrame w now)) = true ->
  inFlight (pilotFrame w now) s e l.
Proof.
intros H Hf. destruct (pilotFrame_refs w now) as (Hs & He & Hl & _).
destruct H as (_ & H1 & H2 & H3).
unfold inFlight. rewrite Hs, He, Hl. auto.
Qed.

Lemma closeTrace_length (nows : list R) :
  forall w, List.length (closeTrace w nows) = List.length nows.
Proof. induction nows as [|n r IH]; intros w; simpl; [|rewrite IH]; reflexivity. Qed.

(** Once the flag is up no update calls [onArrive] again. *)
Lemma fireTrace_faded (nows : list R) :
  forall w, faded (pilot w) = true ->
  fireTrace w nows = map (fun _ => false) (closeTrace w nows).
Proof.
induction nows as [|n r IH]; intros w Hf; simpl; [reflexivity|].
assert (Hn : fires w n = false /\ faded (pilot (pilotFrame w n)) = true).
{ destruct w as [[sp ep la st du fl fa] cam ctl arr]. simpl in Hf. subst fa.
  unfold fires, pilotFrame. simpl.
  destruct fl, sp, ep, la; simpl; split;
    reflexivity || apply Nat.ltb_irrefl. }
destruct Hn as [-> Hn]. f_equal. apply IH, Hn.
Qed.

(** Along a flight [onArrive] is called at the first update that leaves the
    camera within the threshold, and at no other. *)
Lemma fireTrace_first (nows : list R) :
  forall w s e l, inFlight w s e l -> faded (pilot w) = false ->
  fireTrace w nows = firstOnly (closeTrace w nows).
Proof.
induction nows as [|n r IH]; intros w s e l H Hf; simpl; [reflexivity|].
rewrite (pilotFrame_fires w s e l n H), Hf. simpl.
pose proof (pilotFrame_faded w s e l n H) as Hfd.
rewrite (pilotFrame_fires w s e l n H), Hf in Hfd. simpl in Hfd.
destruct (withinThreshold (pilotFrame w n)) eqn:Hc.
- f_equal. apply fireTrace_faded, Hfd.
- f_equal.
  destruct (flying (pilot (pilotFrame w n))) eqn:Hfl.
  + apply (IH _ s e l); [apply inFlight_step; assumption | exact Hfd].
  + rewrite (pilotFrame_done_close w s e l n H Hfl) in Hc. discriminate.
Qed.

Lemma pilotFrames_arrivals (nows : list R) :
  forall w, arrivals (pilotFrames w nows)
            = (arrivals w + count_occ bool_dec (fireTrace w nows) true)%nat.
Proof.
induction nows as [|n r IH]; intros w; simpl; [lia|].
rewrite IH, pilotFrame_arrivals.
destruct (fires w n); simpl; lia.
Qed.

Lemma count_all_false (l : list bool) :
  count_occ bool_dec (map (fun _ => false) l) true = 0%nat.
Proof. induction l as [|b r IH]; simpl; [reflexivity|exact IH]. Qed.

Lemma count_firstOnly (l : list bool) :
  count_occ bool_dec (firstOnly l) true = if existsb (fun b => b) l then 1%nat else 0%nat.
Proof.
induction l as [|b r IH]; simpl; [reflexivity|].
destruct b; simpl.
- rewrite count_all_false. reflexivity.
- exact IH.
Qed.

Lemma setTarget_inFlight (w : Flight) (p : Vector3) (now : R) :
  inFlight (setTarget w (Some p) now) (position (camera w))
           (multiplyScalar (normalize p) (GLOBE_RADIUS + 0.09)) p
  /\ faded (pilot (setTarget w (Some p) now)) = false
  /\ arrivals (setTarget w (Some p) now) = arrivals w
  /\ t0 (pilot (setTarget w (Some p) now)) = now.
Proof. unfold inFlight. simpl. repeat split; reflexivity. Qed.

(** An update at or after the end time of the flight leaves the camera within
    the threshold, and so does every run that contains one. *)
Lemma closeTrace_completed (nows : list R) :
  forall w s e l, inFlight w s e l -> 0 < duration (pilot w) ->
  (exists now, In now nows /\ t0 (pilot w) + duration (pilot w) * 1000 <= now) ->
  existsb (fun b => b) (closeTrace w nows) = true.
Proof.
induction nows as [|n r IH]; intros w s e l H Hd (now & Hin & Hnow).
- destruct Hin.
- simpl. apply orb_true_iff.
  destruct (flying (pilot (pilotFrame w n))) eqn:Hfl.
  + right. destruct Hin as [->|Hin].
    * exfalso. rewrite (pilotFrame_flying w s e l now H) in Hfl.
      rewrite ease_done in Hfl.
      -- destruct (Rle_dec 1 1); [discriminate|lra].
      -- apply Rmult_le_reg_r with (duration (pilot w) * 1000); [lra|].
         unfold Rdiv. rewrite Rmult_assoc, Rinv_l by lra. lra.
    * destruct (pilotFrame_refs w n) as (_ & _ & _ & Ht & Hdu).
      apply (IH _ s e l).
      -- apply inFlight_step; assumption.
      -- rewrite Hdu. exact Hd.
      -- exists now. rewrite Ht, Hdu. auto.
  + left. apply (pilotFrame_done_close w s e l n H Hfl).
Qed.

(** C3, as the code has it: along a flight [onArrive] is called at the first
    update that leaves the camera within 0.65 of the end position and at no
    other, whatever the progress [t] then is; so it is called at most once,
    once exactly when some update reaches the threshold, and that happens in
    every flight that is updated at or after its end time. *)
Theorem arrival_fires_once (w : Flight) (p : Vector3) (now0 : R) (nows : list R) :
  let w0 := setTarget w (Some p) now0 in
  fireTrace w0 nows = firstOnly (closeTrace w0 nows) /\
  arrivals (pilotFrames w0 nows)
  = (arrivals w + if existsb (fun b => b) (closeTrace w0 nows) then 1 else 0)%nat /\
  ((exists now, In now nows /\ now0 + duration (pilot w0) * 1000 <= now) ->
   arrivals (pilotFrames w0 nows) = S (arrivals w)).
Proof.
intros w0.
destruct (setTarget_inFlight w p now0) as (Hin & Hfd & Harr & Ht0).
fold w0 in Hin, Hfd, Harr, Ht0.
assert (Htr : fireTrace w0 nows = firstOnly (closeTrace w0 nows))
  by (eapply fireTrace_first; eassumption).
assert (Hcount : arrivals (pilotFrames w0 nows)
  = (arrivals w + if existsb (fun b => b) (closeTrace w0 nows) then 1 else 0)%nat).
{ rewrite pilotFrames_arrivals, Htr, count_firstOnly, Harr. reflexivity. }
repeat split; [exact Htr | exact Hcount |].
intros Hex. rewrite Hcount.
rewrite (closeTrace_completed nows w0 _ _ _ Hin).
- lia.
- apply flightDuration_pos.
- rewrite Ht0. exact Hex.
Qed.

Lemma arrival_fires_once_witness :
  arrivals (pilotFrames (setTarget (sceneInit None) (Some (vec3 0 0 (-1.5))) 0)
                        [0; 100; 3000]) = 1%nat.
Proof.
apply (proj2 (proj2 (arrival_fires_once (sceneInit None) (vec3 0 0 (-1.5)) 0
                                        [0; 100; 3000]))).
exists 3000. split; [simpl; auto|].
pose proof (flightDuration_range
  (distanceTo (position (camera (sceneInit None)))
     (multiplyScalar (normalize (vec3 0 0 (-1.5))) (GLOBE_RADIUS + 0.09)))).
cbn [setTarget pilot duration]. lra.
Defined.

(** After an update in flight the distance left is the start distance scaled
    by the progress still to make. *)
Lemma withinThreshold_step (w : Flight) (s e l : Vector3) (now : R) :
  inFlight w s e l ->
  withinThreshold (pilotFrame w now)
  = if Rlt_dec ((1 - ease ((now - t0 (pilot w)) / (duration (pilot w) * 1000)))
                * distanceTo s e) ARRIVAL_THRESHOLD
    then true else false.
Proof.
intros H. unfold withinThreshold.
destruct (pilotFrame_refs w now) as (_ & -> & _).
rewrite (pilotFrame_position w s e l now H).
destruct H as (_ & _ & -> & _).
rewrite distanceTo_lerp by apply ease_range.
reflexivity.
Qed.

Lemma far_not_within (w : Flight) (s e l : Vector3) (now a : R) :
  inFlight w s e l ->
  ease ((now - t0 (pilot w)) / (duration (pilot w) * 1000)) <= a ->
  a <= 1 ->
  ARRIVAL_THRESHOLD <= (1 - a) * distanceTo s e ->
  withinThreshold (pilotFrame w now) = false
  /\ flying (pilot (pilotFrame w now)) = true.
Proof.
intros H Ha Ha1 Hfar.
pose proof (distanceTo_nonneg s e) as Hd.
assert (Hlt : ease ((now - t0 (pilot w)) / (duration (pilot w) * 1000)) < 1).
{ destruct (Rlt_le_dec (ease ((now - t0 (pilot w)) / (duration (pilot w) * 1000))) 1)
    as [L|L]; [exact L|].
  unfold ARRIVAL_THRESHOLD in Hfar. nra. }
split.
- rewrite (withinThreshold_step w s e l now H).
  destruct (Rlt_dec _ ARRIVAL_THRESHOLD) as [L|_]; [|reflexivity].
  exfalso. nra.
- rewrite (pilotFrame_flying w s e l now H).
  destruct (Rle_dec 1 _); [lra|reflexivity].
Qed.

(** ** Vectors on the z axis, for concrete flights *)

Lemma length_z (z : R) : length (vec3 0 0 z) = Rabs z.
Proof.
unfold length, lengthSq. simpl.
replace (0 * 0 + 0 * 0 + z * z) with (Rsqr z) by (unfold Rsqr; ring).
apply sqrt_Rsqr_abs.
Qed.

Lemma normalize_z_neg (z : R) : z < 0 -> normalize (vec3 0 0 z) = vec3 0 0 (-1).
Proof.
intros Hz. unfold normalize, divideScalar, multiplyScalar.
rewrite length_z, Rabs_left by exact Hz.
destruct (Req_dec_T (- z) 0); [lra|]. simpl. f_equal; field; lra.
Qed.

Lemma normalize_z_pos (z : R) : 0 < z -> normalize (vec3 0 0 z) = vec3 0 0 1.
Proof.
intros Hz. unfold normalize, divideScalar, multiplyScalar.
rewrite length_z, Rabs_right by lra.
destruct (Req_dec_T z 0); [lra|]. simpl. f_equal; field; lra.
Qed.

Lemma distanceTo_z (a b : R) : distanceTo (vec3 0 0 a) (vec3 0 0 b) = Rabs (a - b).
Proof.
unfold distanceTo, distanceToSquared. simpl.
replace ((0 - 0) * (0 - 0) + (0 - 0) * (0 - 0) + (a - b) * (a - b))
  with (Rsqr (a - b)) by (unfold Rsqr; ring).
apply sqrt_Rsqr_abs.
Qed.

(** The flight from the start-up camera position to the point opposite it:
    its end position and its length. *)
Lemma far_side_flight :
  multiplyScalar (normalize (vec3 0 0 (-1.5))) (GLOBE_RADIUS + 0.09)
  = vec3 0 0 (-1.59)
  /\ distanceTo (vec3 0 0 4.2) (vec3 0 0 (-1.59)) = 5.79.
Proof.
split.
- rewrite normalize_z_neg by lra. unfold multiplyScalar, GLOBE_RADIUS. simpl.
  f_equal; lra.
- rewrite distanceTo_z, Rabs_right; lra.
Qed.

(** C3, counterexample to "exactly once in any flight": a flight that a new
    target cuts off after two updates, both far from the end position, has
    called [onArrive] not once but never. *)
Lemma interrupted_flight_no_arrival :
  let w0 := setTarget (sceneInit None) (Some (vec3 0 0 (-1.5))) 0 in
  let w1 := pilotFrames w0 [0; 100] in
  let w2 := setTarget w1 (Some (vec3 0 0 1.5)) 200 in
  arrivals w1 <> S (arrivals (sceneInit None))
  /\ arrivals w2 = arrivals (sceneInit None).
Proof.
intros w0 w1 w2.
destruct (setTarget_inFlight (sceneInit None) (vec3 0 0 (-1.5)) 0)
  as (Hin & Hfd & Harr & Ht0).
fold w0 in Hin, Hfd, Harr, Ht0.
destruct far_side_flight as [He Hd].
simpl (position (camera (sceneInit None))) in Hin. rewrite He in Hin.
assert (Hdu : 1 <= duration (pilot w0) <= 3) by apply flightDuration_range.
(* first update, at the start time *)
assert (S1 : withinThreshold (pilotFrame w0 0) = false
             /\ flying (pilot (pilotFrame w0 0)) = true).
{ apply (far_not_within w0 _ _ _ 0 0 Hin).
  - rewrite Ht0. replace ((0 - 0) / (duration (pilot w0) * 1000)) with 0
      by (unfold Rdiv; ring).
    unfold ease. destruct (Rle_dec 0 0); lra.
  - lra.
  - rewrite Hd. unfold ARRIVAL_THRESHOLD. lra. }
destruct S1 as [C1 F1].
pose proof (inFlight_step w0 _ _ _ 0 Hin F1) as Hin1.
destruct (pilotFrame_refs w0 0) as (_ & _ & _ & Ht1 & Hdu1).
(* second update, a tenth of a second later *)
assert (S2 : withinThreshold (pilotFrame (pilotFrame w0 0) 100) = false
             /\ flying (pilot (pilotFrame (pilotFrame w0 0) 100)) = true).
{ apply (far_not_within _ _ _ _ 100 0.028 Hin1).
  - rewrite Ht1, Hdu1, Ht0.
    apply Rle_trans with (ease 0.1).
    + apply ease_mono.
      apply Rmult_le_reg_r with (duration (pilot w0) * 1000); [lra|].
      unfold Rdiv. rewrite Rmult_assoc, Rinv_l by lra. lra.
    + unfold ease. destruct (Rle_dec 0.1 0); [lra|].
      destruct (Rle_dec 1 0.1); lra.
  - lra.
  - rewrite Hd. unfold ARRIVAL_THRESHOLD. lra. }
destruct S2 as [C2 F2].
assert (A1 : arrivals w1 = 0%nat).
{ unfold w1. rewrite pilotFrames_arrivals.
  rewrite (fireTrace_first _ w0 _ _ _ Hin Hfd), count_firstOnly.
  simpl closeTrace. rewrite C1, C2. reflexivity. }
split.
- rewrite A1. simpl. discriminate.
- unfold w2. simpl. exact A1.
Qed.

Lemma flight_duration_clamped_witness :
  duration (pilot (setTarget (mkFlight pilotInit (mkCamera (vec3 0 0 1.59) None) None 0)
                             (Some (vec3 0 0 1.5)) 0)) = 1
  /\ duration (pilot (setTarget (mkFlight pilotInit (mkCamera (vec3 0 0 10) None) None 0)
                                (Some (vec3 0 0 (-1.5))) 0)) = 3.
Proof.
split.
- apply (proj1 (proj2 (proj2 (proj2
    (flight_duration_clamped
       (mkFlight pilotInit (mkCamera (vec3 0 0 1.59) None) None 0)
       (vec3 0 0 1.5) 0))))).
  simpl. rewrite normalize_z_pos by lra.
  replace (multiplyScalar (vec3 0 0 1) (GLOBE_RADIUS + 0.09)) with (vec3 0 0 1.59)
    by (unfold multiplyScalar, GLOBE_RADIUS; simpl; f_equal; lra).
  apply distanceTo_self.
- apply (proj2 (proj2 (proj2 (proj2
    (flight_duration_clamped
       (mkFlight pilotInit (mkCamera (vec3 0 0 10) None) None 0)
       (vec3 0 0 (-1.5)) 0))))).
  simpl. rewrite normalize_z_neg by lra.
  replace (multiplyScalar (vec3 0 0 (-1)) (GLOBE_RADIUS + 0.09)) with (vec3 0 0 (-1.59))
    by (unfold multiplyScalar, GLOBE_RADIUS; simpl; f_equal; lra).
  rewrite distanceTo_z, Rabs_right; lra.
Defined.

(** ** The argument function and geographic coordinates *)

Lemma polar_ratio (rho th : R) :
  0 < rho -> cos th <> 0 -> rho * sin th / (rho * cos th) = tan th.
Proof. intros Hr Hc. unfold tan. field. split; lra. Qed.

(** [atan2] recovers the angle of a point given in polar form. *)
Lemma atan2_polar (rho th : R) :
  0 < rho -> - PI < th <= PI ->
  JS.atan2 (rho * sin th) (rho * cos th) = th.
Proof.
intros Hr [Hlo Hhi]. pose proof PI_RGT_0 as Hpi. unfold JS.atan2.
destruct (Rlt_le_dec th (- (PI / 2))) as [A|A].
- (* third quadrant *)
  assert (Hc : cos (th + PI) > 0) by (apply cos_gt_0; lra).
  assert (Hs : sin (th + PI) > 0) by (apply sin_gt_0; lra).
  rewrite neg_cos in Hc. rewrite neg_sin in Hs.
  destruct (Rlt_dec 0 (rho * cos th)); [nra|].
  destruct (Rlt_dec (rho * cos th) 0); [|nra].
  destruct (Rle_dec 0 (rho * sin th)); [nra|].
  rewrite polar_ratio by lra.
  replace (tan th) with (tan (th + PI)).
  + rewrite atan_tan by lra. ring.
  + unfold tan. rewrite neg_sin, neg_cos. field. lra.
- destruct (Req_dec_T th (- (PI / 2))) as [E|E].
  + subst th. rewrite cos_neg, sin_neg, cos_PI2, sin_PI2.
    destruct (Rlt_dec 0 (rho * 0)); [lra|].
    destruct (Rlt_dec (rho * 0) 0); [lra|].
    destruct (Rlt_dec 0 (rho * - (1))); [lra|].
    destruct (Rlt_dec (rho * - (1)) 0); [reflexivity|lra].
  + destruct (Rlt_le_dec th (PI / 2)) as [B|B].
    * (* right half plane *)
      assert (Hc : 0 < cos th) by (apply cos_gt_0; lra).
      destruct (Rlt_dec 0 (rho * cos th)); [|nra].
      rewrite polar_ratio by lra.
      apply atan_tan. lra.
    * destruct (Req_dec_T th (PI / 2)) as [E'|E'].
      -- subst th. rewrite cos_PI2, sin_PI2.
         destruct (Rlt_dec 0 (rho * 0)); [lra|].
         destruct (Rlt_dec (rho * 0) 0); [lra|].
         destruct (Rlt_dec 0 (rho * 1)); [reflexivity|lra].
      -- (* second quadrant *)
         assert (Hc : cos th < 0) by (apply cos_lt_0; lra).
         assert (Hs : 0 <= sin th) by (apply sin_ge_0; lra).
         destruct (Rlt_dec 0 (rho * cos th)); [nra|].
         destruct (Rlt_dec (rho * cos th) 0); [|nra].
         destruct (Rle_dec 0 (rho * sin th)); [|nra].
         rewrite polar_ratio by lra.
         replace (tan th) with (tan (th - PI)).
         ++ rewrite atan_tan by lra. ring.
         ++ pose proof (neg_sin (th - PI)) as Ns.
            pose proof (neg_cos (th - PI)) as Nc.
            replace (th - PI + PI) with th in Ns, Nc by ring.
            unfold tan. rewrite Ns, Nc. field. lra.
Qed.

Lemma atan2_range (y x : R) : - PI < JS.atan2 y x <= PI.
Proof.
pose proof PI_RGT_0 as Hpi. pose proof (atan_bound (y / x)) as [Hl Hu].
unfold JS.atan2.
destruct (Rlt_dec 0 x) as [Hx|Hx]; [lra|].
destruct (Rlt_dec x 0) as [Hx'|Hx'].
- assert (Hi : / x < 0) by (apply Rinv_lt_0_compat; exact Hx').
  destruct (Rle_dec 0 y) as [Hy|Hy].
  + assert (y / x <= 0) by (unfold Rdiv; nra).
    assert (atan (y / x) <= 0).
    { destruct (Req_dec_T (y / x) 0) as [E|E].
      - rewrite E, atan_0. lra.
      - left. rewrite <- atan_0. apply atan_increasing. lra. }
    lra.
  + assert (0 < y / x) by (unfold Rdiv; nra).
    assert (0 < atan (y / x)) by (rewrite <- atan_0; apply atan_increasing; lra).
    lra.
- destruct (Rlt_dec 0 y); [lra|]. destruct (Rlt_dec y 0); lra.
Qed.

Lemma latLonToVec3_lengthSq (lat lon r : R) :
  lengthSq (latLonToVec3 lat lon r) = r * r.
Proof.
unfold lengthSq, latLonToVec3. simpl.
pose proof (sin2_cos2 (degToRad lat)) as Ha.
pose proof (sin2_cos2 (- degToRad lon)) as Hb.
unfold Rsqr in Ha, Hb.
set (sa := sin (degToRad lat)) in *. set (ca := cos (degToRad lat)) in *.
set (sb := sin (- degToRad lon)) in *. set (cb := cos (- degToRad lon)) in *.
replace (r * ca * cb * (r * ca * cb) + r * sa * (r * sa) + r * ca * sb * (r * ca * sb))
  with (r * r * (ca * ca * (sb * sb + cb * cb) + sa * sa)) by ring.
rewrite Hb. replace (ca * ca * 1 + sa * sa) with (sa * sa + ca * ca) by ring.
rewrite Ha. ring.
Qed.

Lemma latLonToVec3_length (lat lon r : R) :
  0 <= r -> length (latLonToVec3 lat lon r) = r.
Proof.
intros Hr. unfold length. rewrite latLonToVec3_lengthSq.
apply sqrt_square, Hr.
Qed.

Lemma degToRad_range (a lo hi : R) :
  lo < a <= hi -> lo / 180 * PI < degToRad a <= hi / 180 * PI.
Proof.
intros [H1 H2]. pose proof PI_RGT_0 as Hpi.
unfold degToRad, DEG2RAD. split; nra.
Qed.

(** The longitude of a converted point is recovered by [atan2(-z, x)], away
    from the poles and for a positive radius. *)
Lemma latLonToVec3_longitude (lat lon r : R) :
  0 < r -> -90 < lat < 90 -> -180 < lon <= 180 ->
  JS.atan2 (- vz (latLonToVec3 lat lon r)) (vx (latLonToVec3 lat lon r))
  = degToRad lon.
Proof.
intros Hr Hlat Hlon. pose proof PI_RGT_0 as Hpi.
unfold latLonToVec3. simpl. rewrite sin_neg, cos_neg.
assert (Hc : 0 < cos (degToRad lat)).
{ apply cos_gt_0; unfold degToRad, DEG2RAD; nra. }
replace (- (r * cos (degToRad lat) * - sin (degToRad lon)))
  with (r * cos (degToRad lat) * sin (degToRad lon)) by ring.
apply atan2_polar.
- apply Rmult_lt_0_compat; assumption.
- unfold degToRad, DEG2RAD. split; nra.
Qed.

(** C6: the converted point lies at distance [r] from the centre; longitudes
    0 and 180 on the equator give antipodal points of the equatorial plane;
    and the Delhi marker's longitude is recovered by [atan2(-z, x)]. *)
Theorem latLonToVec3_sphere :
  (forall lat lon r : R,
     -90 <= lat <= 90 -> -180 <= lon <= 180 -> 0 <= r ->
     length (latLonToVec3 lat lon r) = r) /\
  (forall r : R,
     latLonToVec3 0 0 r = vec3 r 0 0 /\ latLonToVec3 0 180 r = vec3 (- r) 0 0) /\
  (let v := latLonToVec3 DELHI_lat DELHI_lon (GLOBE_RADIUS + MARKER_HEIGHT) in
   JS.atan2 (- vz v) (vx v) * (180 / PI) = 77.2088).
Proof.
pose proof PI_RGT_0 as Hpi.
split; [|split].
- intros lat lon r _ _ Hr. apply latLonToVec3_length, Hr.
- intros r. unfold latLonToVec3, degToRad, DEG2RAD. simpl. split.
  + rewrite !Rmult_0_l, Ropp_0, cos_0, sin_0. f_equal; ring.
  + rewrite Rmult_0_l, cos_0, sin_0.
    replace (180 * (PI / 180)) with PI by (field; lra).
    rewrite cos_neg, sin_neg, cos_PI, sin_PI. f_equal; ring.
- cbv zeta. rewrite latLonToVec3_longitude.
  + unfold degToRad, DEG2RAD, DELHI_lon. field. lra.
  + unfold GLOBE_RADIUS, MARKER_HEIGHT. lra.
  + unfold DELHI_lat. lra.
  + unfold DELHI_lon. lra.
Qed.

Lemma latLonToVec3_sphere_witness :
  length (latLonToVec3 28.6139 77.2088 1.517) = 1.517.
Proof.
apply (proj1 latLonToVec3_sphere); lra.
Defined.

(** ** The reductions inside the ephemeris *)

Lemma rem_sign (n d : R) : 0 < d -> 0 <= n * JS.rem n d.
Proof.
intros Hd. destruct (Rle_lt_dec 0 n) as [Hn|Hn].
- pose proof (rem_nonneg n d Hd Hn). nra.
- pose proof (rem_neg n d Hd Hn). nra.
Qed.

Lemma epoch_centuries : T (jd 0%Z) = -0.3.
Proof. unfold T, jd. lra. Qed.

(** At the Unix epoch the mean longitude comes out of [% 360] negative. *)
Lemma epoch_meanLongitude : meanLongitude (T (jd 0%Z)) = -79.764461712.
Proof.
rewrite epoch_centuries. unfold meanLongitude, JS.rem.
assert (Hq : (280.46646 + -0.3 * (36000.76983 + 0.0003032 * -0.3)) / 360 < 0) by lra.
rewrite (trunc_neg _ Hq).
rewrite (Zceil_eq (-29)) by (split; lra).
lra.
Qed.

(** C4, counterexample to "every reduction site lands in [0, 360)": for the
    instant 1970-01-01T00:00:00Z the reduced mean longitude is negative. *)
Lemma meanLongitude_negative_at_epoch :
  ~ (0 <= meanLongitude (T (jd 0%Z)) < 360).
Proof. rewrite epoch_meanLongitude. lra. Qed.

(** C4, as the code has it: the three [n2] reductions (right ascension, GMST,
    hour angle) land in [0, 2 PI) for every instant; the two [% 360]
    reductions truncate, so their result lies strictly between -360 and 360,
    has the sign of the value reduced and differs from it by a whole multiple
    of 360. *)
Theorem angle_reductions (d : Instant) :
  let s := solarRAdecAndGMST d in
  let J := jd d in
  let t := T J in
  let rawL := 280.46646 + t * (36000.76983 + 0.0003032 * t) in
  let rawG := 280.46061837 + 360.98564736629 * (J - 2451545.0)
              + 0.000387933 * t * t - (t * t * t) / 38710000 in
  0 <= ra s < 2 * PI /\ 0 <= GMST s < 2 * PI /\ 0 <= hourAngle d < 2 * PI /\
  (-360 < meanLongitude t < 360 /\ 0 <= rawL * meanLongitude t
   /\ exists k : Z, meanLongitude t = rawL + IZR k * 360) /\
  (-360 < siderealDegrees J t < 360 /\ 0 <= rawG * siderealDegrees J t
   /\ exists k : Z, siderealDegrees J t = rawG + IZR k * 360).
Proof.
intros s J t rawL rawG.
assert (H360 : 0 < 360) by lra.
split; [apply n2_range|]. split; [apply n2_range|]. split; [apply n2_range|].
split.
- split; [apply rem_abs_lt, H360|]. split; [apply rem_sign, H360|].
  apply rem_congruent.
- split; [apply rem_abs_lt, H360|]. split; [apply rem_sign, H360|].
  apply rem_congruent.
Qed.

(** ** The rotation between two unit vectors *)

Lemma unit_lengthSq (v : Vector3) : length v = 1 -> lengthSq v = 1.
Proof. intros H. rewrite <- length_sqr, H. ring. Qed.

Lemma SUN_W_unit : length SUN_W = 1.
Proof.
unfold SUN_W. apply normalize_unit.
intros H. pose proof (length_sqr (vec3 (-0.7) 0.7 0.75)) as Hs.
rewrite H in Hs. unfold lengthSq in Hs. simpl in Hs. lra.
Qed.

(** A quaternion of non-zero length is normalized by scaling with the inverse
    of its length. *)
Lemma qnormalize_scaled (q : Quaternion) :
  qx q * qx q + qy q * qy q + qz q * qz q + qw q * qw q <> 0 ->
  exists li : R,
    li * li * (qx q * qx q + qy q * qy q + qz q * qz q + qw q * qw q) = 1
    /\ qnormalize q = quat (qx q * li) (qy q * li) (qz q * li) (qw q * li).
Proof.
intros Hn.
set (n := qx q * qx q + qy q * qy q + qz q * qz q + qw q * qw q) in *.
assert (Hp : 0 <= n) by (unfold n; nra).
assert (Hl : qlength q <> 0).
{ unfold qlength. fold n. intros E. apply sqrt_eq_0 in E; [contradiction|exact Hp]. }
exists (1 / qlength q). split.
- assert (Hq : qlength q * qlength q = n) by (unfold qlength; fold n; apply sqrt_sqrt, Hp).
  rewrite <- Hq. field. exact Hl.
- unfold qnormalize. cbv zeta. destruct (Req_dec_T (qlength q) 0); [contradiction|reflexivity].
Qed.

(** Away from the opposite direction the quaternion turns [vFrom] onto
    [vTo] exactly. *)
Lemma setFromUnitVectors_rotates (eps : R) (f t : Vector3) :
  0 < eps -> length f = 1 -> length t = 1 -> eps <= dot f t + 1 ->
  applyQuaternion f (setFromUnitVectors eps f t) = t.
Proof.
intros He Hf Ht Hr.
apply unit_lengthSq in Hf. apply unit_lengthSq in Ht.
destruct f as [a b c], t as [x y z].
unfold lengthSq, dot in *. simpl in *.
unfold setFromUnitVectors, dot. simpl.
destruct (Rlt_dec (a * x + b * y + c * z + 1) eps) as [L|_]; [lra|].
set (q0 := quat (b * z - c * y) (c * x - a * z) (a * y - b * x) (a * x + b * y + c * z + 1)).
assert (Hn : qx q0 * qx q0 + qy q0 * qy q0 + qz q0 * qz q0 + qw q0 * qw q0
             = 2 * (a * x + b * y + c * z + 1)) by (simpl; nsatz).
destruct (qnormalize_scaled q0) as (li & Hli & ->); [rewrite Hn; lra|].
rewrite Hn in Hli. unfold applyQuaternion. simpl.
f_equal; nsatz.
Qed.

(** In the branch for opposite directions the quaternion is a half turn about
    an axis orthogonal to [vFrom], which it therefore reverses. *)
Lemma setFromUnitVectors_reverses (eps : R) (f t : Vector3) :
  length f = 1 -> dot f t + 1 < eps ->
  applyQuaternion f (setFromUnitVectors eps f t) = multiplyScalar f (-1).
Proof.
intros Hf Hr. apply unit_lengthSq in Hf.
destruct f as [a b c], t as [x y z].
unfold lengthSq, dot in *. simpl in *.
unfold setFromUnitVectors, dot. simpl.
destruct (Rlt_dec (a * x + b * y + c * z + 1) eps) as [_|N]; [|lra].
destruct (Rlt_dec (Rabs c) (Rabs a)) as [Hac|Hac].
- assert (Ha : a <> 0).
  { intros E. subst a. rewrite Rabs_R0 in Hac. pose proof (Rabs_pos c). lra. }
  destruct (qnormalize_scaled (quat (- b) a 0 0)) as (li & Hli & ->).
  + simpl. assert (0 < a * a) by nra. nra.
  + simpl in Hli. unfold applyQuaternion, multiplyScalar. simpl.
    f_equal; nsatz.
- assert (Hbc : c * c + b * b <> 0).
  { intros E. assert (c = 0) by nra. assert (b = 0) by nra. subst b c.
    rewrite Rabs_R0 in Hac. assert (Rabs a <= 0) by lra.
    pose proof (Rabs_pos a). assert (Ea : Rabs a = 0) by lra.
    destruct (Req_dec_T a 0) as [E0|E0].
    - subst a. lra.
    - apply Rabs_no_R0 in E0. contradiction. }
  destruct (qnormalize_scaled (quat 0 (- c) b 0)) as (li & Hli & ->).
  + simpl. nra.
  + simpl in Hli. unfold applyQuaternion, multiplyScalar. simpl.
    f_equal; nsatz.
Qed.

Lemma reversed_distance (f t : Vector3) :
  length f = 1 -> length t = 1 ->
  distanceToSquared (multiplyScalar f (-1)) t = 2 * (dot f t + 1).
Proof.
intros Hf Ht. apply unit_lengthSq in Hf. apply unit_lengthSq in Ht.
destruct f as [a b c], t as [x y z].
unfold distanceToSquared, multiplyScalar, lengthSq, dot in *. simpl in *. nsatz.
Qed.

Lemma distanceToSquared_self (a : Vector3) : distanceToSquared a a = 0.
Proof. unfold distanceToSquared. cbv zeta. ring. Qed.

(** Whatever the two unit vectors, the rotated [vFrom] lies within
    [sqrt (2 eps)] of [vTo]. *)
Lemma setFromUnitVectors_close (eps : R) (f t : Vector3) :
  0 < eps -> length f = 1 -> length t = 1 ->
  distanceToSquared (applyQuaternion f (setFromUnitVectors eps f t)) t < 2 * eps.
Proof.
intros He Hf Ht.
destruct (Rlt_le_dec (dot f t + 1) eps) as [L|L].
- rewrite setFromUnitVectors_reverses, reversed_distance by assumption. lra.
- rewrite setFromUnitVectors_rotates, distanceToSquared_self by assumption. lra.
Qed.

(** ** Orientation synchronizer *)

Lemma earthFrame_sun_w (eps : R) (st : Earth) (now : Z) (dt : R) :
  sun_w (earthFrame eps st now dt) = sun_w st.
Proof. unfold earthFrame. destruct (base st); reflexivity. Qed.

Lemma earthFrames_sun_w (eps : R) (ticks : list (Z * R)) :
  forall st, sun_w (earthFrames eps st ticks) = sun_w st.
Proof.
induction ticks as [|[now dt] r IH]; intros st; simpl; [reflexivity|].
rewrite IH. apply earthFrame_sun_w.
Qed.

Lemma earthFrame_base (eps : R) (st : Earth) (now : Z) (dt : R) :
  base st <> None ->
  base (earthFrame eps st now dt)
  = Some (planetOrientation eps (sun_w st) (simInstant st now)).
Proof. unfold earthFrame. destruct (base st); [reflexivity|congruence]. Qed.

Lemma earthFrames_mounted (eps : R) (ticks : list (Z * R)) :
  forall st, base st <> None -> base (earthFrames eps st ticks) <> None.
Proof.
induction ticks as [|[now dt] r IH]; intros st H; simpl; [exact H|].
apply IH. rewrite earthFrame_base by exact H. discriminate.
Qed.

(** C2: after any run of frames from mount, the next frame sets the planet's
    rotation to the quaternion built from the sun direction of its instant
    and the unchanged [SUN_W]; that quaternion carries the sun direction to
    within [sqrt (2 eps)] of [SUN_W], and onto it exactly unless the two are
    within [eps] of opposite. *)
Theorem orientation_maps_sun_to_light
  (eps : R) (He : 0 < eps) (tReal tSim : Z) (ticks : list (Z * R))
  (now : Z) (dt : R) :
  let st := earthFrames eps (earthMounted tReal tSim) ticks in
  let st' := earthFrame eps st now dt in
  let s_e := sunVec_EarthFixed (simInstant st now) in
  let q := setFromUnitVectors eps s_e SUN_W in
  sun_w st = SUN_W /\ sun_w st' = SUN_W /\ base st' = Some q /\
  distanceToSquared (applyQuaternion s_e q) SUN_W < 2 * eps /\
  (eps <= dot s_e SUN_W + 1 -> applyQuaternion s_e q = SUN_W).
Proof.
intros st st' s_e q.
assert (Hs : sun_w st = SUN_W) by (unfold st; rewrite earthFrames_sun_w; reflexivity).
assert (Hm : base st <> None) by (apply earthFrames_mounted; discriminate).
split; [exact Hs|]. split.
- unfold st'. rewrite earthFrame_sun_w. exact Hs.
- split.
  + unfold st'. rewrite earthFrame_base by exact Hm. rewrite Hs. reflexivity.
  + split.
    * apply setFromUnitVectors_close;
        [exact He | apply sunVec_EarthFixed_length | apply SUN_W_unit].
    * intros Hr. apply setFromUnitVectors_rotates;
        [exact He | apply sunVec_EarthFixed_length | apply SUN_W_unit | exact Hr].
Qed.

Lemma EPSILON_pos : 0 < JS.EPSILON.
Proof. unfold JS.EPSILON. apply Rinv_0_lt_compat, pow_lt. lra. Qed.

Lemma orientation_maps_sun_to_light_witness :
  distanceToSquared
    (applyQuaternion (sunVec_EarthFixed (simInstant (earthMounted 0 0) 0))
       (setFromUnitVectors JS.EPSILON
          (sunVec_EarthFixed (simInstant (earthMounted 0 0) 0)) SUN_W))
    SUN_W < 2 * JS.EPSILON.
Proof.
exact (proj1 (proj2 (proj2 (proj2
  (orientation_maps_sun_to_light JS.EPSILON EPSILON_pos 0 0 [] 0 0))))).
Defined.

(** ** Declination at two dates *)

Lemma dec_formula (d : Instant) :
  dec (solarRAdecAndGMST d)
  = asin (sin (obliquity (T (jd d)) * DEG)
          * sin (apparentLongitude (T (jd d)) * DEG)).
Proof. reflexivity. Qed.

Lemma PI_bounds : 3 < PI <= 4.
Proof. pose proof PI2_3_2. pose proof PI_4. lra. Qed.

Lemma DEG_bounds : 3 / 180 < DEG <= 4 / 180.
Proof. pose proof PI_bounds. unfold DEG. lra. Qed.

Lemma cos_ge_quadratic (y : R) : -2 <= y <= 2 -> 1 - y * y / 2 <= cos y.
Proof.
intros [H1 H2]. destruct (pre_cos_bound y 0 H1 H2) as [L _].
unfold cos_approx, cos_term in L. simpl in L. lra.
Qed.

Lemma sin_ge_cubic (y : R) : 0 <= y <= 4 -> y - y * y * y / 6 <= sin y.
Proof.
intros [H1 H2]. destruct (pre_sin_bound y 0 H1 H2) as [L _].
unfold sin_approx, sin_term in L. simpl in L. lra.
Qed.

(** Whole turns, counted in degrees, drop out of the sine. *)
Lemma sin_deg_turns (x : R) (k : nat) : sin ((x + 360 * INR k) * DEG) = sin (x * DEG).
Proof.
rewrite <- (sin_period (x * DEG) k). f_equal. unfold DEG. field.
Qed.

(** The declination lies between two angles of the first and fourth quadrant
    as soon as its sine lies between theirs. *)
Lemma asin_between (s lo hi : R) :
  -1 <= s <= 1 -> - (PI / 2) <= lo <= PI / 2 -> - (PI / 2) <= hi <= PI / 2 ->
  sin lo < s < sin hi -> lo < asin s < hi.
Proof.
intros Hs Hlo Hhi [H1 H2].
pose proof (asin_bound s) as Hb. pose proof (sin_asin s Hs) as Hsa.
split.
- apply sin_increasing_0; lra.
- apply sin_increasing_0; lra.
Qed.

(** *** 2024-03-20T12:00:00Z *)

Lemma equinox_centuries : T (jd (utcInstant 2024 3 20 12 0 0)) = 8845 / 36525.
Proof. replace (utcInstant 2024 3 20 12 0 0) with 1710936000000%Z by reflexivity.
unfold T, jd. lra. Qed.

Lemma equinox_meanLongitude : 358.5 < meanLongitude (8845 / 36525) < 358.6.
Proof.
unfold meanLongitude, JS.rem.
assert (Hq : 0 <= (280.46646 + 8845 / 36525 * (36000.76983 + 0.0003032 * (8845 / 36525))) / 360) by lra.
rewrite (trunc_nonneg _ Hq).
rewrite (Zfloor_eq 24) by (split; lra).
split; lra.
Qed.

Lemma equinox_anomaly_sine : 0.94 < sin (meanAnomaly (8845 / 36525) * DEG).
Proof.
pose proof DEG_bounds as [Dl Du].
set (m := meanAnomaly (8845 / 36525) - 9000).
assert (Hm : 75.1 < m < 75.2) by (unfold m, meanAnomaly; split; lra).
replace (meanAnomaly (8845 / 36525) * DEG) with ((m + 360 * INR 25) * DEG)
  by (unfold m; simpl INR; f_equal; lra).
rewrite sin_deg_turns.
rewrite <- cos_shift.
replace (PI / 2 - m * DEG) with ((90 - m) * DEG) by (unfold DEG; field).
set (y := (90 - m) * DEG).
assert (Hy : 0 <= y <= 0.3312) by (unfold y; split; nra).
pose proof (cos_ge_quadratic y ltac:(lra)) as Hc.
nra.
Qed.

Lemma equinox_equationOfCenter : 1.77 < equationOfCenter (8845 / 36525) < 1.95.
Proof.
unfold equationOfCenter. cbv zeta.
pose proof equinox_anomaly_sine as H1.
pose proof (SIN_bound (meanAnomaly (8845 / 36525) * DEG)) as [_ H1u].
pose proof (SIN_bound (2.0 * (meanAnomaly (8845 / 36525) * DEG))) as [H2l H2u].
pose proof (SIN_bound (3.0 * (meanAnomaly (8845 / 36525) * DEG))) as [H3l H3u].
set (s1 := sin (meanAnomaly (8845 / 36525) * DEG)) in *.
set (s2 := sin (2.0 * (meanAnomaly (8845 / 36525) * DEG))) in *.
set (s3 := sin (3.0 * (meanAnomaly (8845 / 36525) * DEG))) in *.
split; nra.
Qed.

Lemma equinox_apparentLongitude : 360.2 < apparentLongitude (8845 / 36525) < 360.6.
Proof.
unfold apparentLongitude.
pose proof equinox_meanLongitude. pose proof equinox_equationOfCenter.
pose proof (SIN_bound (ascendingNode (8845 / 36525) * DEG)).
split; lra.
Qed.

Lemma equinox_declination : -1 < declinationDeg (utcInstant 2024 3 20 12 0 0) < 1.
Proof.
pose proof DEG_bounds as [Dl Du]. pose proof PI_bounds as [Pl Pu].
unfold declinationDeg. rewrite dec_formula, equinox_centuries.
set (x := apparentLongitude (8845 / 36525) - 360).
assert (Hx : 0.2 < x < 0.6) by (unfold x; pose proof equinox_apparentLongitude; lra).
replace (apparentLongitude (8845 / 36525) * DEG) with ((x + 360 * INR 1) * DEG)
  by (unfold x; simpl INR; f_equal; lra).
rewrite sin_deg_turns.
pose proof (SIN_bound (obliquity (8845 / 36525) * DEG)) as [El Eu].
set (e := sin (obliquity (8845 / 36525) * DEG)) in *.
assert (Hu : 0 < sin (x * DEG) < sin (1 * DEG)).
{ split.
  - apply sin_gt_0; nra.
  - apply sin_increasing_1; nra. }
set (u := sin (x * DEG)) in *.
pose proof (SIN_bound (1 * DEG)) as [_ S1].
assert (Hb : - (1 * DEG) < asin (e * u) < 1 * DEG).
{ apply asin_between.
  - split; nra.
  - split; nra.
  - split; nra.
  - rewrite sin_neg. split; nra. }
assert (Hd : 0 < DEG) by lra.
split.
- apply Rmult_lt_reg_r with DEG; [exact Hd|].
  unfold Rdiv. rewrite Rmult_assoc, Rinv_l by lra. lra.
- apply Rmult_lt_reg_r with DEG; [exact Hd|].
  unfold Rdiv. rewrite Rmult_assoc, Rinv_l by lra. lra.
Qed.

(** *** 2024-06-21T00:00:00Z *)

Lemma solstice_centuries : T (jd (utcInstant 2024 6 21 0 0 0)) = 17875 / 73050.
Proof. replace (utcInstant 2024 6 21 0 0 0) with 1718928000000%Z by reflexivity.
unfold T, jd. lra. Qed.

Lemma solstice_meanLongitude : 89.68 < meanLongitude (17875 / 73050) < 89.69.
Proof.
unfold meanLongitude, JS.rem.
assert (Hq : 0 <= (280.46646 + 17875 / 73050 * (36000.76983 + 0.0003032 * (17875 / 73050))) / 360) by lra.
rewrite (trunc_nonneg _ Hq).
rewrite (Zfloor_eq 25) by (split; lra).
split; lra.
Qed.

Lemma solstice_anomaly_sine : 0 < sin (meanAnomaly (17875 / 73050) * DEG) < 0.304.
Proof.
pose proof DEG_bounds as [Dl Du]. pose proof PI_bounds as [Pl Pu].
set (m := meanAnomaly (17875 / 73050) - 9000).
assert (Hm : 166.33 < m < 166.34) by (unfold m, meanAnomaly; split; lra).
replace (meanAnomaly (17875 / 73050) * DEG) with ((m + 360 * INR 25) * DEG)
  by (unfold m; simpl INR; f_equal; lra).
rewrite sin_deg_turns.
rewrite <- sin_PI_x.
replace (PI - m * DEG) with ((180 - m) * DEG) by (unfold DEG; field).
set (y := (180 - m) * DEG).
assert (Hy : 0 < y < 0.304) by (unfold y; split; nra).
split.
- apply sin_gt_0; lra.
- pose proof (sin_lt_x y ltac:(lra)). lra.
Qed.

Lemma solstice_equationOfCenter : -0.03 < equationOfCenter (17875 / 73050) < 0.61.
Proof.
unfold equationOfCenter. cbv zeta.
pose proof solstice_anomaly_sine as [H1l H1u].
pose proof (SIN_bound (2.0 * (meanAnomaly (17875 / 73050) * DEG))) as [H2l H2u].
pose proof (SIN_bound (3.0 * (meanAnomaly (17875 / 73050) * DEG))) as [H3l H3u].
set (s1 := sin (meanAnomaly (17875 / 73050) * DEG)) in *.
set (s2 := sin (2.0 * (meanAnomaly (17875 / 73050) * DEG))) in *.
set (s3 := sin (3.0 * (meanAnomaly (17875 / 73050) * DEG))) in *.
split; nra.
Qed.

Lemma solstice_apparentLongitude : 89.6 < apparentLongitude (17875 / 73050) < 90.4.
Proof.
unfold apparentLongitude.
pose proof solstice_meanLongitude. pose proof solstice_equationOfCenter.
pose proof (SIN_bound (ascendingNode (17875 / 73050) * DEG)).
split; lra.
Qed.

Lemma solstice_obliquity : 23.4335 < obliquity (17875 / 73050) < 23.4387.
Proof.
unfold obliquity.
pose proof (COS_bound (ascendingNode (17875 / 73050) * DEG)).
split; lra.
Qed.

Lemma solstice_longitude_sine : 0.99996 < sin (apparentLongitude (17875 / 73050) * DEG) <= 1.
Proof.
pose proof DEG_bounds as [Dl Du].
pose proof solstice_apparentLongitude as Hl.
split; [|apply SIN_bound].
rewrite <- cos_shift.
replace (PI / 2 - apparentLongitude (17875 / 73050) * DEG)
  with ((90 - apparentLongitude (17875 / 73050)) * DEG) by (unfold DEG; field).
set (y := (90 - apparentLongitude (17875 / 73050)) * DEG).
assert (Hy : -0.0089 <= y <= 0.0089) by (unfold y; split; nra).
pose proof (cos_ge_quadratic y ltac:(lra)) as Hc.
nra.
Qed.

Lemma obliquity_sine_gap : sin (23.35 * DEG) + 0.001 < sin (23.4335 * DEG).
Proof.
pose proof DEG_bounds as [Dl Du].
pose proof (form4 (23.4335 * DEG) (23.35 * DEG)) as F.
replace ((23.4335 * DEG + 23.35 * DEG) / 2) with (23.39175 * DEG) in F by lra.
replace ((23.4335 * DEG - 23.35 * DEG) / 2) with (0.04175 * DEG) in F by lra.
set (g := 23.39175 * DEG) in *. set (h := 0.04175 * DEG) in *.
assert (Hg : 0 <= g <= 0.52) by (unfold g; split; lra).
assert (Hh : 0.00069 < h <= 0.00093) by (unfold h; split; lra).
pose proof (cos_ge_quadratic g ltac:(lra)) as Hc.
pose proof (sin_ge_cubic h ltac:(lra)) as Hs.
assert (Hc' : 0.86 <= cos g) by nra.
assert (Hs' : 0.00068 <= sin h) by nra.
assert (0.86 * 0.00068 <= cos g * sin h) by (apply Rmult_le_compat; lra).
lra.
Qed.

Lemma solstice_declination : 23.35 < declinationDeg (utcInstant 2024 6 21 0 0 0) < 23.45.
Proof.
pose proof DEG_bounds as [Dl Du]. pose proof PI_bounds as [Pl Pu].
unfold declinationDeg. rewrite dec_formula, solstice_centuries.
pose proof solstice_longitude_sine as [Ll Lu]. pose proof solstice_obliquity as [El Eu].
set (u := sin (apparentLongitude (17875 / 73050) * DEG)) in *.
set (eps := obliquity (17875 / 73050)) in *.
assert (PD : PI = 180 * DEG) by (unfold DEG; field).
assert (Elo : sin (23.4335 * DEG) < sin (eps * DEG)) by (apply sin_increasing_1; nra).
assert (Ehi : sin (eps * DEG) < sin (23.45 * DEG)) by (apply sin_increasing_1; nra).
pose proof obliquity_sine_gap as G.
pose proof (SIN_bound (eps * DEG)) as [_ E1].
assert (E0 : 0 < sin (eps * DEG)) by (apply sin_gt_0; nra).
pose proof (SIN_bound (23.45 * DEG)) as [_ S1].
set (e := sin (eps * DEG)) in *.
assert (Hb : 23.35 * DEG < asin (e * u) < 23.45 * DEG).
{ apply asin_between.
  - split; nra.
  - split; nra.
  - split; nra.
  - split; nra. }
assert (Hd : 0 < DEG) by lra.
split.
- apply Rmult_lt_reg_r with DEG; [exact Hd|].
  unfold Rdiv. rewrite Rmult_assoc, Rinv_l by lra. lra.
- apply Rmult_lt_reg_r with DEG; [exact Hd|].
  unfold Rdiv. rewrite Rmult_assoc, Rinv_l by lra. lra.
Qed.

(** C9: at 2024-03-20T12:00:00Z the computed declination is within 1 degree
    of 0; at 2024-06-21T00:00:00Z it is within 0.05 degree of 23.4. *)
Theorem declination_scenarios :
  Rabs (declinationDeg (utcInstant 2024 3 20 12 0 0)) < 1 /\
  Rabs (declinationDeg (utcInstant 2024 6 21 0 0 0) - 23.4) < 0.05.
Proof.
pose proof equinox_declination as [A1 A2].
pose proof solstice_declination as [B1 B2].
split; apply Rabs_def1; lra.
Qed.

(** * Further properties of the camera pilot *)

Lemma pilotFrames_parked (nows : list R) :
  forall w, flying (pilot w) = false -> pilotFrames w nows = w.
Proof.
induction nows as [|n r IH]; intros w H; simpl; [reflexivity|].
rewrite (pilotFrame_parked w n H). apply IH, H.
Qed.

Lemma pilotFrame_lookingAt (w : Flight) (s e l : Vector3) (now : R) :
  inFlight w s e l -> lookingAt (camera (pilotFrame w now)) = Some l.
Proof. intros H. open_flight w H. reflexivity. Qed.

(** The update that ends the flight leaves the camera at the end position. *)
Lemma pilotFrame_done_position (w : Flight) (s e l : Vector3) (now : R) :
  inFlight w s e l ->
  flying (pilot (pilotFrame w now)) = false ->
  position (camera (pilotFrame w now)) = e.
Proof.
intros H Hf.
rewrite (pilotFrame_flying w s e l now H) in Hf.
destruct (Rle_dec 1 _) as [H1|H1]; [|discriminate].
rewrite (pilotFrame_position w s e l now H).
pose proof (ease_range ((now - t0 (pilot w)) / (duration (pilot w) * 1000))) as [_ Hle].
replace (ease _) with 1 by lra.
apply lerpVectors_1.
Qed.

Lemma late_update_done (w : Flight) (s e l : Vector3) (now : R) :
  inFlight w s e l -> 0 < duration (pilot w) ->
  t0 (pilot w) + duration (pilot w) * 1000 <= now ->
  flying (pilot (pilotFrame w now)) = false.
Proof.
intros H Hd Hn. rewrite (pilotFrame_flying w s e l now H).
rewrite ease_done.
- destruct (Rle_dec 1 1); [reflexivity|lra].
- apply Rmult_le_reg_r with (duration (pilot w) * 1000); [lra|].
  unfold Rdiv. rewrite Rmult_assoc, Rinv_l by lra. lra.
Qed.

Lemma pilotFrames_parks (nows : list R) :
  forall w s e l, inFlight w s e l -> 0 < duration (pilot w) ->
  (exists now, In now nows /\ t0 (pilot w) + duration (pilot w) * 1000 <= now) ->
  flying (pilot (pilotFrames w nows)) = false
  /\ position (camera (pilotFrames w nows)) = e
  /\ lookingAt (camera (pilotFrames w nows)) = Some l.
Proof.
induction nows as [|n r IH]; intros w s e l H Hd (now & Hin & Hnow).
- destruct Hin.
- simpl.
  destruct (flying (pilot (pilotFrame w n))) eqn:Hfl.
  + destruct Hin as [->|Hin].
    * rewrite (late_update_done w s e l now H Hd Hnow) in Hfl. discriminate.
    * destruct (pilotFrame_refs w n) as (_ & _ & _ & Ht & Hdu).
      apply (IH _ s e l).
      -- apply inFlight_step; assumption.
      -- rewrite Hdu. exact Hd.
      -- exists now. rewrite Ht, Hdu. auto.
  + rewrite (pilotFrames_parked r _ Hfl).
    split; [exact Hfl|]. split.
    * apply (pilotFrame_done_position w s e l n H Hfl).
    * apply (pilotFrame_lookingAt w s e l n H).
Qed.

(** A flight that is updated at or after its end time is parked: the camera
    stands exactly at the end position, looks at the target, and the pilot no
    longer moves it, however many updates follow. *)
Theorem flight_parks_at_end
  (w : Flight) (p : Vector3) (now0 : R) (nows : list R) :
  let w0 := setTarget w (Some p) now0 in
  (exists now, In now nows /\ now0 + duration (pilot w0) * 1000 <= now) ->
  flying (pilot (pilotFrames w0 nows)) = false
  /\ position (camera (pilotFrames w0 nows))
     = multiplyScalar (normalize p) (GLOBE_RADIUS + 0.09)
  /\ lookingAt (camera (pilotFrames w0 nows)) = Some p.
Proof.
intros w0 Hex.
destruct (setTarget_inFlight w p now0) as (Hin & _ & _ & Ht0).
fold w0 in Hin, Ht0.
apply (pilotFrames_parks nows w0 _ _ _ Hin).
- apply flightDuration_pos.
- rewrite Ht0. exact Hex.
Qed.

Lemma flight_parks_at_end_witness :
  position (camera (pilotFrames
     (setTarget (sceneInit None) (Some (vec3 0 0 (-1.5))) 0) [0; 100; 3000]))
  = multiplyScalar (normalize (vec3 0 0 (-1.5))) (GLOBE_RADIUS + 0.09).
Proof.
refine (proj1 (proj2 (flight_parks_at_end (sceneInit None) (vec3 0 0 (-1.5)) 0
                                          [0; 100; 3000] _))).
exists 3000. split; [simpl; auto|].
pose proof (flightDuration_range
  (distanceTo (position (camera (sceneInit None)))
     (multiplyScalar (normalize (vec3 0 0 (-1.5))) (GLOBE_RADIUS + 0.09)))).
cbn [setTarget pilot duration]. lra.
Defined.

(** No flight lasts longer than three seconds: an update three seconds after
    the target was set always ends it. *)
Theorem flight_over_after_three_seconds
  (w : Flight) (p : Vector3) (now0 now : R) :
  now0 + 3000 <= now ->
  flying (pilot (pilotFrame (setTarget w (Some p) now0) now)) = false.
Proof.
intros Hn.
destruct (setTarget_inFlight w p now0) as (Hin & _ & _ & Ht0).
apply (late_update_done _ _ _ _ now Hin).
- apply flightDuration_pos.
- rewrite Ht0.
  pose proof (flightDuration_range
    (distanceTo (position (camera w))
       (multiplyScalar (normalize p) (GLOBE_RADIUS + 0.09)))) as Hr.
  cbn [setTarget pilot duration]. lra.
Qed.

Lemma flight_over_after_three_seconds_witness :
  flying (pilot (pilotFrame (setTarget (sceneInit None) (Some (vec3 1 2 3)) 500) 3500))
  = false.
Proof.
apply flight_over_after_three_seconds. lra.
Defined.

(** The end position of a flight stands 0.09 above the globe, whatever the
    distance of the target point from the centre, as long as it is not the
    centre itself. *)
Theorem flight_end_standoff (w : Flight) (p : Vector3) (now : R) :
  length p <> 0 ->
  exists e, endPos (pilot (setTarget w (Some p) now)) = Some e
            /\ length e = GLOBE_RADIUS + 0.09.
Proof.
intros Hp. exists (multiplyScalar (normalize p) (GLOBE_RADIUS + 0.09)).
split; [reflexivity|].
rewrite length_multiplyScalar by (unfold GLOBE_RADIUS; lra).
rewrite normalize_unit by exact Hp. ring.
Qed.

Lemma flight_end_standoff_witness :
  exists e, endPos (pilot (setTarget (sceneInit None) (Some (vec3 0 0 1.5)) 0)) = Some e
            /\ length e = GLOBE_RADIUS + 0.09.
Proof.
apply flight_end_standoff. rewrite length_z, Rabs_right; lra.
Defined.

Lemma pilotFrame_enabled (w : Flight) (now : R) :
  option_map enabled (controls (pilotFrame w now))
  = option_map enabled (controls w).
Proof.
destruct w as [[sp ep la st du fl fa] cam ctl arr]. unfold pilotFrame. simpl.
destruct fl, sp, ep, la; simpl; try reflexivity.
destruct ctl as [c|]; simpl; [|reflexivity].
destruct (hasSetLookAt c); reflexivity.
Qed.

Lemma pilotFrames_enabled (nows : list R) :
  forall w, option_map enabled (controls (pilotFrames w nows))
            = option_map enabled (controls w).
Proof.
induction nows as [|n r IH]; intros w; simpl; [reflexivity|].
rewrite IH. apply pilotFrame_enabled.
Qed.

(** Starting a flight switches the orbit controls off, and no update of the
    pilot switches them on again, not even the one that ends the flight. *)
Theorem controls_stay_disabled
  (w : Flight) (c : Controls) (p : Vector3) (now0 : R) (nows : list R) :
  controls w = Some c ->
  option_map enabled (controls (pilotFrames (setTarget w (Some p) now0) nows))
  = Some false.
Proof.
intros Hc. rewrite pilotFrames_enabled. simpl. rewrite Hc. reflexivity.
Qed.

Lemma controls_stay_disabled_witness :
  option_map enabled
    (controls (pilotFrames
       (setTarget (sceneInit (Some (mkControls true false None)))
                  (Some (vec3 0 0 (-1.5))) 0) [0; 100; 3000]))
  = Some false.
Proof.
apply (controls_stay_disabled _ (mkControls true false None)). reflexivity.
Defined.

(** During a flight a later clock reading never puts the camera farther from
    the end position than an earlier one. *)
Theorem camera_approaches (w : Flight) (p : Vector3) (now0 n1 n2 : R) :
  n1 <= n2 ->
  let w0 := setTarget w (Some p) now0 in
  let e := multiplyScalar (normalize p) (GLOBE_RADIUS + 0.09) in
  distanceTo (position (camera (pilotFrame w0 n2))) e
  <= distanceTo (position (camera (pilotFrame w0 n1))) e.
Proof.
intros Hn w0 e.
destruct (setTarget_inFlight w p now0) as (Hin & _ & _ & Ht0).
fold w0 e in Hin.
rewrite !(pilotFrame_position w0 _ _ _ _ Hin).
rewrite !distanceTo_lerp by apply ease_range.
pose proof (distanceTo_nonneg (position (camera w)) e) as Hd.
assert (Hdu : 0 < duration (pilot w0)) by apply flightDuration_pos.
assert (He : ease ((n1 - t0 (pilot w0)) / (duration (pilot w0) * 1000))
             <= ease ((n2 - t0 (pilot w0)) / (duration (pilot w0) * 1000))).
{ apply ease_mono. unfold Rdiv. apply Rmult_le_compat_r; [|lra].
  left. apply Rinv_0_lt_compat. lra. }
nra.
Qed.

Lemma camera_approaches_witness :
  distanceTo (position (camera (pilotFrame
     (setTarget (sceneInit None) (Some (vec3 0 0 (-1.5))) 0) 2000)))
     (multiplyScalar (normalize (vec3 0 0 (-1.5))) (GLOBE_RADIUS + 0.09))
  <= distanceTo (position (camera (pilotFrame
     (setTarget (sceneInit None) (Some (vec3 0 0 (-1.5))) 0) 1000)))
     (multiplyScalar (normalize (vec3 0 0 (-1.5))) (GLOBE_RADIUS + 0.09)).
Proof.
apply (camera_approaches (sceneInit None) (vec3 0 0 (-1.5)) 0 1000 2000). lra.
Defined.

(** A flight that starts within the threshold of its end position (start
    and end equal, in particular) calls [onArrive] at its first update,
    whatever the clock shows. *)
Theorem short_flight_arrives_at_once (w : Flight) (p : Vector3) (now0 now : R) :
  distanceTo (position (camera w))
             (multiplyScalar (normalize p) (GLOBE_RADIUS + 0.09))
  < ARRIVAL_THRESHOLD ->
  fires (setTarget w (Some p) now0) now = true.
Proof.
intros Hd.
destruct (setTarget_inFlight w p now0) as (Hin & Hfd & _ & _).
rewrite (pilotFrame_fires _ _ _ _ now Hin), Hfd. cbn [negb andb].
rewrite (withinThreshold_step _ _ _ _ now Hin).
pose proof (ease_range ((now - t0 (pilot (setTarget w (Some p) now0)))
                        / (duration (pilot (setTarget w (Some p) now0)) * 1000))) as He.
pose proof (distanceTo_nonneg (position (camera w))
              (multiplyScalar (normalize p) (GLOBE_RADIUS + 0.09))) as H0.
destruct (Rlt_dec _ ARRIVAL_THRESHOLD) as [_|N]; [reflexivity|].
exfalso. apply N. nra.
Qed.

Lemma short_flight_arrives_at_once_witness :
  fires (setTarget (mkFlight pilotInit (mkCamera (vec3 0 0 1.59) None) None 0)
                   (Some (vec3 0 0 1.5)) 0) 0 = true.
Proof.
apply short_flight_arrives_at_once. simpl.
rewrite normalize_z_pos by lra.
replace (multiplyScalar (vec3 0 0 1) (GLOBE_RADIUS + 0.09)) with (vec3 0 0 1.59)
  by (unfold multiplyScalar, GLOBE_RADIUS; simpl; f_equal; lra).
rewrite distanceTo_self. unfold ARRIVAL_THRESHOLD. lra.
Defined.

(** * Further properties of the planet's frame update *)

Lemma trunc_IZR (z : Z) : JS.trunc (IZR z) = z.
Proof.
unfold JS.trunc. destruct (Rle_dec 0 (IZR z)).
- apply ZfloorZ.
- unfold Zceil. rewrite <- opp_IZR, ZfloorZ. lia.
Qed.

Lemma earthFrame_clocks (eps : R) (st : Earth) (now : Z) (dt : R) :
  t0Real (earthFrame eps st now dt) = t0Real st
  /\ t0Sim (earthFrame eps st now dt) = t0Sim st.
Proof. unfold earthFrame. destruct (base st); split; reflexivity. Qed.

Lemma earthFrames_clocks (eps : R) (ticks : list (Z * R)) :
  forall st, t0Real (earthFrames eps st ticks) = t0Real st
             /\ t0Sim (earthFrames eps st ticks) = t0Sim st.
Proof.
induction ticks as [|[now dt] r IH]; intros st; simpl; [split; reflexivity|].
destruct (IH (earthFrame eps st now dt)) as [-> ->].
apply earthFrame_clocks.
Qed.

(** With the shipped time scale the simulated instant is the wall clock's,
    shifted by the gap between the two readings taken at mount: after any run
    of frames the instant handed to the ephemeris is [Date.now()] plus that
    gap, hence [Date.now()] itself when both readings fell in the same
    millisecond. *)
Theorem simulated_clock_is_wall_clock
  (eps : R) (tReal tSim : Z) (ticks : list (Z * R)) (now : Z) :
  simInstant (earthFrames eps (earthMounted tReal tSim) ticks) now
  = (now + (tSim - tReal))%Z
  /\ simInstant (earthFrames eps (earthMounted tReal tReal) ticks) now = now.
Proof.
assert (G : forall a b : Z,
          simInstant (earthFrames eps (earthMounted a b) ticks) now
          = (now + (b - a))%Z).
{ intros a b. unfold simInstant.
  destruct (earthFrames_clocks eps ticks (earthMounted a b)) as [-> ->].
  simpl. unfold TIME_SCALE.
  replace (IZR b + (IZR now - IZR a) * 1) with (IZR (now + (b - a)))
    by (rewrite plus_IZR, minus_IZR; ring).
  apply trunc_IZR. }
split; [apply G|]. rewrite G. lia.
Qed.

Lemma easeOutCubic_range (t : R) : 0 <= t <= 1 -> 0 <= easeOutCubic t <= 1.
Proof.
intros [H0 H1]. unfold easeOutCubic. simpl.
assert (0 <= (1.0 - t) * ((1.0 - t) * ((1.0 - t) * 1)) <= 1).
{ assert (0 <= 1.0 - t <= 1) by lra.
  assert (0 <= (1.0 - t) * (1.0 - t) <= 1) by nra.
  split; nra. }
lra.
Qed.

Lemma easeOutCubic_mono (s t : R) :
  0 <= s -> s <= t -> t <= 1 -> easeOutCubic s <= easeOutCubic t.
Proof.
intros H0 Hst H1. unfold easeOutCubic. simpl.
assert (Ha : 0 <= 1.0 - t <= 1.0 - s) by lra.
assert (Hb : 0 <= (1.0 - t) * (1.0 - t) <= (1.0 - s) * (1.0 - s)) by nra.
assert ((1.0 - t) * ((1.0 - t) * (1.0 - t)) <= (1.0 - s) * ((1.0 - s) * (1.0 - s))).
{ apply Rmult_le_compat; lra. }
lra.
Qed.

Lemma earthMounted_fade (tReal tSim : Z) : fadeInvariant (earthMounted tReal tSim).
Proof.
unfold fadeInvariant, earthMounted, easeOutCubic. simpl.
split; [discriminate|]. split; lra.
Qed.

Lemma earthFrame_introT (eps : R) (st : Earth) (now : Z) (dt : R) :
  fadeInvariant st -> 0 <= dt ->
  introT (earthFrame eps st now dt) = Rmin (introT st + dt) 1
  /\ fadeInvariant (earthFrame eps st now dt).
Proof.
intros (Hb & Hi & Hg) Hdt. unfold earthFrame, fadeInvariant.
destruct (base st) as [q|]; [|congruence]. simpl.
assert (E : Rmin (introT st + dt) 1.0 = Rmin (introT st + dt) 1) by (f_equal; lra).
rewrite E.
assert (Hr : 0 <= Rmin (introT st + dt) 1 <= 1).
{ unfold Rmin. destruct (Rle_dec _ _); lra. }
split; [reflexivity|]. split; [discriminate|]. split; [exact Hr|].
f_equal. lra.
Qed.

Lemma Rmin_absorb (a d s : R) : 0 <= s -> Rmin (Rmin (a + d) 1 + s) 1 = Rmin (a + (d + s)) 1.
Proof. intros Hs. unfold Rmin. repeat destruct (Rle_dec _ _); lra. Qed.

Lemma elapsed_nonneg (ticks : list (Z * R)) :
  Forall (fun tk => 0 <= snd tk) ticks -> 0 <= elapsed ticks.
Proof.
induction 1 as [|[now dt] r Hd _ IH]; simpl in *; lra.
Qed.

Lemma earthFrames_introT (eps : R) (ticks : list (Z * R)) :
  Forall (fun tk => 0 <= snd tk) ticks ->
  forall st, fadeInvariant st ->
  introT (earthFrames eps st ticks) = Rmin (introT st + elapsed ticks) 1
  /\ fadeInvariant (earthFrames eps st ticks).
Proof.
induction 1 as [|[now dt] r Hd Hr IH]; intros st Hinv; simpl in *.
- split; [|exact Hinv]. destruct Hinv as (_ & Hi & _).
  rewrite Rplus_0_r. unfold Rmin. destruct (Rle_dec _ _); lra.
- destruct (earthFrame_introT eps st now dt Hinv Hd) as [Hi Hinv'].
  destruct (IH _ Hinv') as [Hi' Hinv''].
  split; [|exact Hinv''].
  rewrite Hi', Hi. apply Rmin_absorb, elapsed_nonneg, Hr.
Qed.

(** The start-up fade: after a run of frames with non-negative time steps
    the gain is the cubic ease-out of the time elapsed since mount, capped at
    one second; it lies in [0, 1], no further frame lowers it, and from one
    second on it is 1. *)
Theorem gain_ramp (eps : R) (tReal tSim : Z) (ticks : list (Z * R)) :
  Forall (fun tk => 0 <= snd tk) ticks ->
  let st := earthFrames eps (earthMounted tReal tSim) ticks in
  uGain st = easeOutCubic (Rmin (elapsed ticks) 1)
  /\ 0 <= uGain st <= 1
  /\ (1 <= elapsed ticks -> uGain st = 1)
  /\ (forall (now : Z) (dt : R), 0 <= dt ->
        uGain st <= uGain (earthFrame eps st now dt)).
Proof.
intros Hdt st.
destruct (earthFrames_introT eps ticks Hdt _ (earthMounted_fade tReal tSim)) as [Hi Hinv].
fold st in Hi, Hinv. simpl in Hi. rewrite Rplus_0_l in Hi.
destruct Hinv as (Hb & Hr & Hg).
assert (G : uGain st = easeOutCubic (Rmin (elapsed ticks) 1)) by (rewrite Hg, Hi; reflexivity).
split; [exact G|]. split; [rewrite Hg; apply easeOutCubic_range, Hr|]. split.
- intros H1. rewrite G. rewrite Rmin_right by exact H1.
  unfold easeOutCubic. simpl. lra.
- intros now dt Hd.
  destruct (earthFrame_introT eps st now dt (conj Hb (conj Hr Hg)) Hd)
    as [Hi' (_ & Hr' & Hg')].
  rewrite Hg, Hg', Hi'. apply easeOutCubic_mono; try lra;
    unfold Rmin; destruct (Rle_dec _ _); lra.
Qed.

Lemma gain_ramp_witness :
  uGain (earthFrames JS.EPSILON (earthMounted 0 0) [(16%Z, 0.5); (516%Z, 0.75)]) = 1.
Proof.
apply (proj1 (proj2 (proj2 (gain_ramp JS.EPSILON 0 0 [(16%Z, 0.5); (516%Z, 0.75)]
  ltac:(repeat constructor; simpl; lra)))));
simpl; lra.
Defined.

Lemma earthFrames_clouds (eps : R) (ticks : list (Z * R)) :
  forall st y, base st <> None -> clouds st = Some y ->
  clouds (earthFrames eps st ticks)
  = Some (y + OMEGA_CLOUD * CLOUD_SPEED_MULTIPLIER * elapsed ticks).
Proof.
induction ticks as [|[now dt] r IH]; intros st y Hb Hc; simpl.
- rewrite Hc. f_equal. ring.
- rewrite (IH _ (y + OMEGA_CLOUD * dt * CLOUD_SPEED_MULTIPLIER)).
  + f_equal. ring.
  + rewrite earthFrame_base by exact Hb. discriminate.
  + unfold earthFrame. destruct (base st); [|congruence]. simpl. rewrite Hc.
    reflexivity.
Qed.

(** The cloud shell turns at a constant rate: after a run of frames its
    angle is the elapsed time times [OMEGA_CLOUD * CLOUD_SPEED_MULTIPLIER],
    which makes one full turn every 1200 seconds. *)
Theorem cloud_rotation (eps : R) (tReal tSim : Z) (ticks : list (Z * R)) :
  clouds (earthFrames eps (earthMounted tReal tSim) ticks)
  = Some (OMEGA_CLOUD * CLOUD_SPEED_MULTIPLIER * elapsed ticks)
  /\ OMEGA_CLOUD * CLOUD_SPEED_MULTIPLIER * 1200 = 2 * PI.
Proof.
split.
- rewrite (earthFrames_clouds eps ticks (earthMounted tReal tSim) 0).
  + f_equal. ring.
  + discriminate.
  + reflexivity.
- unfold OMEGA_CLOUD, CLOUD_SPEED_MULTIPLIER, CLOUD_ROTATION_PERIOD_HOURS. field.
Qed.

(** * Further properties of the rotation and of the marker *)

Lemma qnormalize_unit (q : Quaternion) : qlength (qnormalize q) = 1.
Proof.
unfold qnormalize. cbv zeta.
destruct (Req_dec_T (qlength q) 0) as [E|E].
- unfold qlength. simpl.
  replace (0 * 0 + 0 * 0 + 0 * 0 + 1 * 1) with 1 by ring. apply sqrt_1.
- set (n := qx q * qx q + qy q * qy q + qz q * qz q + qw q * qw q).
  assert (Hp : 0 <= n) by (unfold n; nra).
  assert (Hq : qlength q * qlength q = n) by (unfold qlength; fold n; apply sqrt_sqrt, Hp).
  unfold qlength at 1. simpl.
  replace (qx q * (1 / qlength q) * (qx q * (1 / qlength q))
           + qy q * (1 / qlength q) * (qy q * (1 / qlength q))
           + qz q * (1 / qlength q) * (qz q * (1 / qlength q))
           + qw q * (1 / qlength q) * (qw q * (1 / qlength q))) with 1.
  + apply sqrt_1.
  + transitivity (n / (qlength q * qlength q)).
    * rewrite Hq. field. rewrite <- Hq. nra.
    * unfold n. field. exact E.
Qed.

Lemma qlength_unit_sq (q : Quaternion) :
  qlength q = 1 -> qx q * qx q + qy q * qy q + qz q * qz q + qw q * qw q = 1.
Proof.
intros H. unfold qlength in H.
assert (Hp : 0 <= qx q * qx q + qy q * qy q + qz q * qz q + qw q * qw q) by nra.
rewrite <- (sqrt_sqrt _ Hp), H. ring.
Qed.

(** A unit quaternion turns vectors without stretching them. *)
Lemma applyQuaternion_lengthSq (v : Vector3) (q : Quaternion) :
  qlength q = 1 -> lengthSq (applyQuaternion v q) = lengthSq v.
Proof.
intros H. apply qlength_unit_sq in H.
destruct v as [x y z], q as [a b c d].
unfold lengthSq, applyQuaternion. simpl in *. nsatz.
Qed.

Lemma earthFrames_base_unit (eps : R) (ticks : list (Z * R)) :
  forall st, (exists q, base st = Some q /\ qlength q = 1) ->
  exists q, base (earthFrames eps st ticks) = Some q /\ qlength q = 1.
Proof.
induction ticks as [|[now dt] r IH]; intros st Hq; simpl; [exact Hq|].
apply IH. destruct Hq as (q & Hb & _).
rewrite earthFrame_base by (rewrite Hb; discriminate).
eexists. split; [reflexivity|].
unfold planetOrientation, setFromUnitVectors. apply qnormalize_unit.
Qed.

(** Clicking the marker gives a fly target on the globe's surface: whatever
    frames have turned the planet since mount, the target lies at distance
    [GLOBE_RADIUS] from the centre. *)
Theorem marker_click_on_surface
  (eps : R) (tReal tSim : Z) (ticks : list (Z * R)) (markerVec : Vector3) :
  length markerVec <> 0 ->
  length (onMarkerClick markerVec (base (earthFrames eps (earthMounted tReal tSim) ticks)))
  = GLOBE_RADIUS.
Proof.
intros Hm.
destruct (earthFrames_base_unit eps ticks (earthMounted tReal tSim)) as (q & -> & Hq).
- exists (quat 0 0 0 1). split; [reflexivity|].
  unfold qlength. simpl.
  replace (0 * 0 + 0 * 0 + 0 * 0 + 1 * 1) with 1 by ring. apply sqrt_1.
- unfold onMarkerClick, length. cbv zeta.
  rewrite applyQuaternion_lengthSq by exact Hq.
  fold (length (setLength markerVec GLOBE_RADIUS)).
  unfold setLength. rewrite length_multiplyScalar by (unfold GLOBE_RADIUS; lra).
  rewrite normalize_unit by exact Hm. ring.
Qed.

Lemma marker_click_on_surface_witness :
  length (onMarkerClick (vec3 0 0 1.517)
            (base (earthFrames JS.EPSILON (earthMounted 0 0) [(16%Z, 0.016)])))
  = GLOBE_RADIUS.
Proof.
apply marker_click_on_surface. rewrite length_z, Rabs_right; lra.
Defined.

(** The marker made from geographic coordinates is never at the centre, so
    the click above applies to it. *)
Lemma latLonToVec3_nonzero (lat lon r : R) :
  0 < r -> length (latLonToVec3 lat lon r) <> 0.
Proof. intros Hr. rewrite latLonToVec3_length; lra. Qed.

(** The conversion can be undone: away from the poles, [asin(y / r)] and
    [atan2(-z, x)] give back the latitude and the (east-positive) longitude,
    in radians. *)
Theorem latLonToVec3_roundtrip (lat lon r : R) :
  0 < r -> -90 < lat < 90 -> -180 < lon <= 180 ->
  let v := latLonToVec3 lat lon r in
  asin (vy v / r) = degToRad lat /\ JS.atan2 (- vz v) (vx v) = degToRad lon.
Proof.
intros Hr Hlat Hlon v. pose proof PI_RGT_0 as Hpi. split.
- unfold v, latLonToVec3. simpl.
  replace (r * sin (degToRad lat) / r) with (sin (degToRad lat)) by (field; lra).
  apply asin_sin. unfold degToRad, DEG2RAD. split; nra.
- apply latLonToVec3_longitude; assumption.
Qed.

Lemma latLonToVec3_roundtrip_witness :
  asin (vy (latLonToVec3 28.6139 77.2088 1.517) / 1.517) = degToRad 28.6139
  /\ JS.atan2 (- vz (latLonToVec3 28.6139 77.2088 1.517))
              (vx (latLonToVec3 28.6139 77.2088 1.517)) = degToRad 77.2088.
Proof.
apply (latLonToVec3_roundtrip 28.6139 77.2088 1.517); lra.
Defined.

(** * The sun never comes opposite to the light *)

Lemma PI_tight : 3.1415 < PI < 3.1421.
Proof.
pose proof (PI_2_3_7_ineq 1) as [L U].
unfold sum_f_R0, tg_alt, PI_2_3_7_tg, Ratan_seq in L, U.
simpl in L, U.
split; lra.
Qed.

Lemma SUN_W_components :
  exists k : R, 0 < k /\ k * k * 1.5425 = 1
                /\ SUN_W = vec3 (-0.7 * k) (0.7 * k) (0.75 * k).
Proof.
set (v := vec3 (-0.7) 0.7 0.75).
assert (Hs : length v * length v = 1.5425).
{ rewrite length_sqr. unfold lengthSq, v. simpl. lra. }
assert (Hn : length v <> 0) by (intros E; rewrite E in Hs; lra).
pose proof (length_nonneg v) as Hp.
exists (1 / length v). split; [|split].
- unfold Rdiv. rewrite Rmult_1_l. apply Rinv_0_lt_compat. lra.
- rewrite <- Hs. field. exact Hn.
- unfold SUN_W, normalize, divideScalar, multiplyScalar. fold v.
  destruct (Req_dec_T (length v) 0); [contradiction|]. reflexivity.
Qed.

Lemma obliquity_near_J2000 (t : R) : -10 <= t <= 10 -> 23.3 < obliquity t < 23.6.
Proof.
intros [Hl Hu]. unfold obliquity.
pose proof (COS_bound (ascendingNode t * DEG)) as [Cl Cu].
assert (H2 : 0 <= t * t <= 100) by nra.
assert (H3 : -1000 <= t * t * t <= 1000) by nra.
split; lra.
Qed.

(** A unit vector whose second component is at most 0.42 in size keeps a
    positive distance from the opposite of the light direction. *)
Lemma sun_light_separation (sx y sz k : R) :
  sx * sx + y * y + sz * sz = 1 -> 0 < k -> k * k * 1.5425 = 1 ->
  -0.42 <= y <= 0.42 ->
  0.01 <= (sx * (-0.7 * k) + y * (0.7 * k) + sz * (0.75 * k)) + 1.
Proof.
intros Hu Hk Hk2 Hy.
set (w := 0.7 * k).
assert (Hw2 : w * w * 1.5425 = 0.49) by (unfold w; nra).
assert (Hw0 : 0 < w) by (unfold w; lra).
assert (Hw : 0.56 < w < 0.57).
{ split.
  - destruct (Rlt_le_dec 0.56 w) as [L|L]; [exact L|exfalso].
    assert (w * w <= 0.56 * 0.56) by (apply Rmult_le_compat; lra). lra.
  - destruct (Rlt_le_dec w 0.57) as [L|L]; [exact L|exfalso].
    assert (0.57 * 0.57 <= w * w) by (apply Rmult_le_compat; lra). lra. }
set (A := sx * (-0.7 * k) + sz * (0.75 * k)).
assert (HA : A * A <= (1 - w * w) * (1 - y * y)).
{ assert (Hsq : 0 <= (k * (0.75 * sx + 0.7 * sz)) * (k * (0.75 * sx + 0.7 * sz)))
    by apply Rle_0_sqr.
  assert (E : (1 - w * w) * (1 - y * y) - A * A
              = (k * (0.75 * sx + 0.7 * sz)) * (k * (0.75 * sx + 0.7 * sz))
                + (sx * sx + sz * sz) * (1 - k * k * 1.5425)
                + (1 - w * w) * (1 - y * y - sx * sx - sz * sz)).
  { unfold A, w. lra. }
  rewrite Hk2 in E. replace (1 - y * y - sx * sx - sz * sz) with 0 in E by lra.
  lra. }
destruct (Rle_lt_dec 0.01 (A + y * w + 1)) as [G|G];
  [unfold A in G; fold w; lra|exfalso].
assert (Hyw : -0.24 <= y * w <= 0.24) by (split; nra).
assert (Hpos : 0 < 0.99 + y * w) by lra.
assert (HA2 : (0.99 + y * w) * (0.99 + y * w) < A * A) by nra.
assert (Hmin : 0.0199 < w * w + y * y + 1.98 * (y * w)).
{ assert (0.31 < w * w < 0.33) by nra.
  assert (0 <= (y + 0.42) * (0.42 - y)) by nra.
  nra. }
nra.
Qed.

Lemma declination_sine_near_J2000 (d : Instant) :
  -10 <= T (jd d) <= 10 ->
  -0.42 <= sin (dec (solarRAdecAndGMST d)) <= 0.42.
Proof.
intros Ht. pose proof PI_tight as [Pl Pu].
pose proof (obliquity_near_J2000 _ Ht) as [Ol Ou].
rewrite dec_formula.
set (e := obliquity (T (jd d)) * DEG) in *.
assert (He : 0 < e < 0.412) by (unfold e, DEG; split; nra).
assert (HE : 0 < sin e < 0.412).
{ split; [apply sin_gt_0; lra|]. pose proof (sin_lt_x e ltac:(lra)). lra. }
pose proof (SIN_bound (apparentLongitude (T (jd d)) * DEG)) as [Ul Uu].
set (E := sin e) in *. set (u := sin (apparentLongitude (T (jd d)) * DEG)) in *.
rewrite sin_asin by (split; nra).
split; nra.
Qed.

(** For every instant within ten Julian centuries of J2000 the sun direction
    stays well away from the direction opposite to [SUN_W] (the declination is
    too small to reach it), so the frame's quaternion carries it onto [SUN_W]
    exactly, for any threshold [eps] up to 0.01. *)
Theorem orientation_exact_near_J2000 (eps : R) (d : Instant) :
  0 < eps <= 0.01 -> -10 <= T (jd d) <= 10 ->
  applyQuaternion (sunVec_EarthFixed d) (planetOrientation eps SUN_W d) = SUN_W.
Proof.
intros [He1 He2] Ht. unfold planetOrientation.
apply setFromUnitVectors_rotates;
  [exact He1 | apply sunVec_EarthFixed_length | apply SUN_W_unit |].
pose proof (unit_lengthSq _ (sunVec_EarthFixed_length d)) as Hu.
rewrite sunVec_EarthFixed_components in Hu |- *.
destruct SUN_W_components as (k & Hk & Hk2 & ->).
unfold lengthSq in Hu. unfold dot. simpl in *.
pose proof (declination_sine_near_J2000 d Ht) as Hy.
pose proof (sun_light_separation _ _ _ k Hu Hk Hk2 Hy). lra.
Qed.

Lemma EPSILON_small : JS.EPSILON <= 0.01.
Proof.
unfold JS.EPSILON.
apply Rle_trans with (/ 2 ^ 7).
- apply Rinv_le_contravar; [apply pow_lt; lra|].
  apply Rle_pow; [lra|lia].
- simpl. lra.
Qed.

Lemma orientation_exact_near_J2000_witness :
  applyQuaternion (sunVec_EarthFixed (utcInstant 2024 3 20 12 0 0))
    (planetOrientation JS.EPSILON SUN_W (utcInstant 2024 3 20 12 0 0))
  = SUN_W.
Proof.
apply orientation_exact_near_J2000.
- split; [apply EPSILON_pos | apply EPSILON_small].
- rewrite equinox_centuries. lra.
Defined.

(** * Further properties of the angle reduction *)

Lemma sin_cos_turns (a : R) (k : Z) :
  sin (a + 2 * PI * IZR k) = sin a /\ cos (a + 2 * PI * IZR k) = cos a.
Proof.
destruct (Z_le_gt_dec 0 k) as [Hk|Hk].
- rewrite <- (Z2Nat.id k Hk), <- INR_IZR_INZ.
  replace (a + 2 * PI * INR (Z.to_nat k)) with (a + 2 * INR (Z.to_nat k) * PI) by ring.
  split; [apply sin_period | apply cos_period].
- assert (Hn : (0 <= - k)%Z) by lia.
  set (b := a + 2 * PI * IZR k).
  replace a with (b + 2 * INR (Z.to_nat (- k)) * PI).
  + split; symmetry; [apply sin_period | apply cos_period].
  + rewrite INR_IZR_INZ, (Z2Nat.id _ Hn), opp_IZR. unfold b. ring.
Qed.

(** Under sine and cosine the reduction is invisible. *)
Lemma n2_sin_cos (a : R) : sin (n2 a) = sin a /\ cos (n2 a) = cos a.
Proof.
rewrite n2_floor.
replace (a - 2 * PI * IZR (Zfloor (a / (2 * PI))))
  with (a + 2 * PI * IZR (- Zfloor (a / (2 * PI)))) by (rewrite opp_IZR; ring).
apply sin_cos_turns.
Qed.

(** [n2] leaves the angles of [0, 2 PI) alone, so reducing twice is reducing
    once. *)
Theorem n2_fixes_range :
  (forall a : R, 0 <= a < 2 * PI -> n2 a = a) /\
  (forall a : R, n2 (n2 a) = n2 a).
Proof.
assert (F : forall a : R, 0 <= a < 2 * PI -> n2 a = a).
{ intros a [H0 H1]. rewrite n2_floor.
  rewrite (Zfloor_eq 0).
  - simpl. ring.
  - pose proof two_PI_pos as Hd. simpl. split.
    + apply quotient_sign_nonneg; assumption.
    + apply Rmult_lt_reg_r with (2 * PI); [exact Hd|].
      unfold Rdiv. rewrite Rmult_assoc, Rinv_l by lra. lra. }
split; [exact F|]. intros a. apply F, n2_range.
Qed.

Lemma n2_fixes_range_witness : n2 1 = 1.
Proof.
apply (proj1 n2_fixes_range). pose proof PI_bounds. lra.
Defined.

(** The sun direction in terms of the unreduced hour angle: the [n2] around
    [GMST - ra] does not change the vector. *)
Theorem sunVec_hour_angle (d : Instant) :
  let s := solarRAdecAndGMST d in
  sunVec_EarthFixed d
  = vec3 (cos (dec s) * cos (GMST s - ra s)) (sin (dec s))
         (cos (dec s) * sin (GMST s - ra s)).
Proof.
intros s. rewrite sunVec_EarthFixed_components. unfold hourAngle. fold s.
destruct (n2_sin_cos (GMST s - ra s)) as [-> ->]. reflexivity.
Qed.

(** The truncating [% 360] reductions do not affect what the ephemeris
    returns: the sidereal time is the floor-style reduction of the unreduced
    polynomial, and the declination is the one of the unreduced longitude. *)
Theorem truncation_is_harmless (d : Instant) :
  let J := jd d in
  let t := T J in
  let rawL := 280.46646 + t * (36000.76983 + 0.0003032 * t) in
  let rawG := 280.46061837 + 360.98564736629 * (J - 2451545.0)
              + 0.000387933 * t * t - (t * t * t) / 38710000 in
  let lambdaRaw := rawL + equationOfCenter t
                   - 0.00569 - 0.00478 * sin (ascendingNode t * DEG) in
  GMST (solarRAdecAndGMST d) = n2 (rawG * DEG) /\
  dec (solarRAdecAndGMST d)
  = asin (sin (obliquity t * DEG) * sin (lambdaRaw * DEG)) /\
  ra (solarRAdecAndGMST d)
  = n2 (JS.atan2 (cos (obliquity t * DEG) * sin (lambdaRaw * DEG))
                 (cos (lambdaRaw * DEG))).
Proof.
intros J t rawL rawG lambdaRaw.
assert (HL : exists k : Z,
           apparentLongitude t * DEG = lambdaRaw * DEG + 2 * PI * IZR k).
{ destruct (rem_congruent rawL 360) as [k Hk]. exists k.
  unfold apparentLongitude, meanLongitude. fold rawL. rewrite Hk.
  unfold lambdaRaw, DEG. field. }
destruct HL as [k HL].
destruct (sin_cos_turns (lambdaRaw * DEG) k) as [Hs Hc].
split; [|split].
- change (GMST (solarRAdecAndGMST d)) with (n2 (siderealDegrees J t * DEG)).
  destruct (rem_congruent rawG 360) as [k' Hk'].
  unfold siderealDegrees. fold rawG. rewrite Hk'.
  replace ((rawG + IZR k' * 360) * DEG) with (rawG * DEG + 2 * PI * IZR k')
    by (unfold DEG; field).
  apply n2_period.
- rewrite dec_formula. fold J t. rewrite HL, Hs. reflexivity.
- change (ra (solarRAdecAndGMST d))
    with (n2 (JS.atan2 (cos (obliquity t * DEG) * sin (apparentLongitude t * DEG))
                       (cos (apparentLongitude t * DEG)))).
  rewrite HL, Hs, Hc. reflexivity.
Qed.

(** * Further properties of the blend and of the fades *)

Lemma glsl_clamp01_high (x : R) : 1 <= x -> GLSL.clamp x 0 1 = 1.
Proof.
intros H. unfold GLSL.clamp, Rmax, Rmin. repeat destruct (Rle_dec _ _); lra.
Qed.

Lemma glsl_clamp01_low (x : R) : x <= 0 -> GLSL.clamp x 0 1 = 0.
Proof.
intros H. unfold GLSL.clamp, Rmax, Rmin. repeat destruct (Rle_dec _ _); lra.
Qed.

Lemma dayAmount_day (k : R) : 0.15 <= k -> dayAmount k = 1.
Proof.
intros H. unfold dayAmount, GLSL.smoothstep. cbv zeta.
rewrite glsl_clamp01_high by lra. ring.
Qed.

Lemma dayAmount_night (k : R) : k <= -0.15 -> dayAmount k = 0.
Proof.
intros H. unfold dayAmount, GLSL.smoothstep. cbv zeta.
rewrite glsl_clamp01_low by lra. ring.
Qed.

(** Outside the terminator band the blend is fixed: on the day side the
    fragment shows the day texel alone, on the night side the day texel at
    the ambient level plus nine tenths of the night texel; the alpha channel
    is always the gain. *)
Theorem blend_outside_band (dayCol nightCol n s : Vector3) (a g : R) :
  let k := dot (GLSL.normalize n) (GLSL.normalize s) in
  let out := earthFS dayCol nightCol n s a g in
  alpha out = g /\
  (0.15 <= k -> rgb out = dayCol) /\
  (k <= -0.15 ->
   rgb out = vec3 (vx dayCol * a + vx nightCol * 0.9)
                  (vy dayCol * a + vy nightCol * 0.9)
                  (vz dayCol * a + vz nightCol * 0.9)).
Proof.
intros k out. split; [reflexivity|]. split; intros H.
- unfold out. rewrite earthFS_weights. cbv zeta. fold k.
  unfold dayWeight, nightWeight. rewrite (dayAmount_day k H).
  destruct dayCol as [x y z]. simpl. f_equal; lra.
- unfold out. rewrite earthFS_weights. cbv zeta. fold k.
  unfold dayWeight, nightWeight. rewrite (dayAmount_night k H).
  f_equal; lra.
Qed.

Lemma glsl_normalize_unit (v : Vector3) :
  length v <> 0 -> lengthSq (GLSL.normalize v) = 1.
Proof.
intros Hv. pose proof (length_sqr v) as Hs.
unfold GLSL.normalize. unfold lengthSq at 1. simpl.
transitivity (lengthSq v / (length v * length v)).
- unfold lengthSq. field. exact Hv.
- rewrite Hs. field. rewrite <- Hs. nra.
Qed.

(** The cosine fed to the smoothstep really is one: for a non-zero normal and
    a non-zero sun direction it lies in [-1, 1]. *)
Theorem terminator_cosine_range (n s : Vector3) :
  length n <> 0 -> length s <> 0 ->
  -1 <= dot (GLSL.normalize n) (GLSL.normalize s) <= 1.
Proof.
intros Hn Hs.
pose proof (glsl_normalize_unit n Hn) as Un.
pose proof (glsl_normalize_unit s Hs) as Us.
destruct (GLSL.normalize n) as [a b c], (GLSL.normalize s) as [x y z].
unfold lengthSq, dot in *. simpl in *.
pose proof (Rle_0_sqr (a - x)). pose proof (Rle_0_sqr (b - y)).
pose proof (Rle_0_sqr (c - z)). pose proof (Rle_0_sqr (a + x)).
pose proof (Rle_0_sqr (b + y)). pose proof (Rle_0_sqr (c + z)).
unfold Rsqr in *. split; lra.
Qed.

Lemma terminator_cosine_range_witness :
  -1 <= dot (GLSL.normalize (vec3 0 0 2)) (GLSL.normalize (vec3 0 0 (-3))) <= 1.
Proof.
apply terminator_cosine_range; rewrite length_z.
- rewrite Rabs_right; lra.
- rewrite Rabs_left; lra.
Defined.

(** The sky dome fades in without overshooting: each frame keeps the opacity
    between 0 and the requested one, never lowers it, and once the intro time
    has run out closes a fifth of the remaining gap. *)
Theorem sky_fade (opacity : R) (st : Sky) (dt : R) :
  0 <= opacity -> 0 <= dt -> 0 <= skyIntroT st <= 1 ->
  0 <= skyOpacity st <= opacity * (1 - (1 - skyIntroT st) ^ 3) ->
  let st' := skyFrame opacity st dt in
  0 <= skyIntroT st' <= 1 /\ skyIntroT st <= skyIntroT st' /\
  skyOpacity st <= skyOpacity st' /\
  0 <= skyOpacity st' <= opacity * (1 - (1 - skyIntroT st') ^ 3) /\
  skyOpacity st' <= opacity /\
  (skyIntroT st = 1 ->
   opacity - skyOpacity st' = 0.8 * (opacity - skyOpacity st)).
Proof.
intros Ho Hdt Hi Hop st'.
set (i' := Rmin (skyIntroT st + dt) 1.0).
assert (Hi' : 0 <= i' <= 1 /\ skyIntroT st <= i').
{ unfold i', Rmin. destruct (Rle_dec _ _); lra. }
destruct Hi' as [Hr Hm].
assert (Hcube : forall u, 0 <= u <= 1 -> 0 <= (1 - u) ^ 3 <= 1).
{ intros u Hu. simpl. assert (0 <= (1 - u) * (1 - u) <= 1) by nra. split; nra. }
assert (Hdec : (1 - i') ^ 3 <= (1 - skyIntroT st) ^ 3).
{ simpl. assert (0 <= (1 - i') * (1 - i') <= (1 - skyIntroT st) * (1 - skyIntroT st)) by nra.
  assert ((1 - i') * ((1 - i') * (1 - i'))
          <= (1 - skyIntroT st) * ((1 - skyIntroT st) * (1 - skyIntroT st)))
    by (apply Rmult_le_compat; lra).
  lra. }
pose proof (Hcube i' Hr) as Hc'. pose proof (Hcube _ Hi) as Hc.
assert (Ht : opacity * (1 - (1 - skyIntroT st) ^ 3) <= opacity * (1 - (1 - i') ^ 3))
  by (apply Rmult_le_compat_l; lra).
assert (Htop : opacity * (1 - (1 - i') ^ 3) <= opacity) by nra.
assert (E : skyOpacity st'
            = (1 - 0.2) * skyOpacity st + 0.2 * (opacity * (1 - (1 - i' / 1.0) ^ 3)))
  by reflexivity.
replace (i' / 1.0) with i' in E by lra.
change (skyIntroT st') with i'.
split; [exact Hr|]. split; [exact Hm|].
split; [lra|]. split; [lra|]. split; [lra|].
intros H1. assert (Ei : i' = 1) by lra.
rewrite E, Ei. simpl. lra.
Qed.

Lemma sky_fade_witness :
  skyOpacity (mkSky 0 0) <= skyOpacity (skyFrame 0.24 (mkSky 0 0) 0.016).
Proof.
refine (proj1 (proj2 (proj2 (sky_fade 0.24 (mkSky 0 0) 0.016 _ _ _ _))));
simpl; lra.
Defined.

(** The marker's pulse keeps its scale between 0.75 and 1.25. *)
Theorem glowScale_range (t : R) : 0.75 <= glowScale t <= 1.25.
Proof.
unfold glowScale. pose proof (SIN_bound (t * 4)). lra.
Qed.

Lemma blend_outside_band_witness :
  rgb (earthFS (vec3 0.2 0.4 0.6) (vec3 1 1 0) (vec3 0 0 2) (vec3 0 0 3) AMBIENT 1)
  = vec3 0.2 0.4 0.6.
Proof.
apply (proj1 (proj2 (blend_outside_band (vec3 0.2 0.4 0.6) (vec3 1 1 0)
                                        (vec3 0 0 2) (vec3 0 0 3) AMBIENT 1))).
unfold GLSL.normalize, dot. rewrite !length_z. simpl.
rewrite !Rabs_right by lra. lra.
Defined.

(** * Marker placement *)

Lemma markerInit_length : length markerInit = GLOBE_RADIUS + MARKER_HEIGHT.
Proof.
unfold markerInit. apply latLonToVec3_length.
unfold GLOBE_RADIUS, MARKER_HEIGHT. lra.
Qed.

Lemma ipFallback_length (m : Vector3) (ip : IpOutcome) :
  length m = GLOBE_RADIUS + MARKER_HEIGHT ->
  length (ipFallback m ip) = GLOBE_RADIUS + MARKER_HEIGHT.
Proof.
intros Hm. unfold ipFallback.
destruct ip as [[[[la|] [lo|]]|]|]; cbn [ipLatitude ipLongitude]; try exact Hm.
destruct (truthy (Some la) && truthy (Some lo)); [|exact Hm].
apply latLonToVec3_length. unfold GLOBE_RADIUS, MARKER_HEIGHT. lra.
Qed.

(** However the location lookups end, the marker sits 0.017 above the globe:
    a device fix, an IP answer, a refusal, a failed or empty lookup all leave
    it at distance [GLOBE_RADIUS + MARKER_HEIGHT] from the centre. *)
Theorem marker_height_invariant
  (hasGeolocation : bool) (gps : GeoOutcome) (ip : IpOutcome) :
  length (locateMarker hasGeolocation gps ip markerInit)
  = GLOBE_RADIUS + MARKER_HEIGHT.
Proof.
unfold locateMarker. destruct hasGeolocation.
- destruct gps as [la lo| |].
  + apply latLonToVec3_length. unfold GLOBE_RADIUS, MARKER_HEIGHT. lra.
  + apply ipFallback_length, markerInit_length.
  + apply markerInit_length.
- apply ipFallback_length, markerInit_length.
Qed.

(** The IP fallback tests its coordinates for truthiness, so an answer on the
    equator or on the prime meridian (a coordinate equal to 0) is dropped and
    the marker stays where it was; any answer with two non-zero coordinates
    is taken.  A device fix is taken whatever its coordinates. *)
Theorem ip_fallback_drops_zero_coordinates (m : Vector3) (la lo : R) :
  ipFallback m (IpJson (Some (mkIpData (Some 0) (Some lo)))) = m /\
  ipFallback m (IpJson (Some (mkIpData (Some la) (Some 0)))) = m /\
  (la <> 0 -> lo <> 0 ->
   ipFallback m (IpJson (Some (mkIpData (Some la) (Some lo))))
   = latLonToVec3 la lo (GLOBE_RADIUS + MARKER_HEIGHT)) /\
  (forall ip, locateMarker true (GpsFix 0 lo) ip m
              = latLonToVec3 0 lo (GLOBE_RADIUS + MARKER_HEIGHT)).
Proof.
unfold ipFallback, truthy. simpl. split; [|split; [|split]].
- destruct (Req_dec_T 0 0) as [_|N]; [reflexivity|exfalso; apply N; reflexivity].
- destruct (Req_dec_T la 0); simpl; [reflexivity|].
  destruct (Req_dec_T 0 0) as [_|N]; [reflexivity|exfalso; apply N; reflexivity].
- intros Hla Hlo.
  destruct (Req_dec_T la 0); [contradiction|].
  destruct (Req_dec_T lo 0); [contradiction|]. reflexivity.
- intros ip. reflexivity.
Qed.

Lemma ip_fallback_drops_zero_coordinates_witness :
  ipFallback markerInit (IpJson (Some (mkIpData (Some 51.5) (Some (-0.12)))))
  = latLonToVec3 51.5 (-0.12) (GLOBE_RADIUS + MARKER_HEIGHT).
Proof.
apply (proj1 (proj2 (proj2 (ip_fallback_drops_zero_coordinates markerInit 51.5 (-0.12)))));
lra.
Defined.

(** * The fade overlay *)

Lemma fadeStep_shown (st : FadeStage) (ev : FadeEvent) :
  st <> hidden -> fadeStep st ev <> hidden.
Proof. destruct st, ev; simpl; congruence. Qed.

(** The overlay is a one-way street: the first arrival brings it up, and no
    later arrival or animation end takes it down again. *)
Theorem overlay_never_hidden_again (before after : list FadeEvent) :
  fadeRun hidden (before ++ Arrive :: after) <> hidden.
Proof.
unfold fadeRun. rewrite fold_left_app. simpl.
assert (G : forall evs st, st <> hidden -> fold_left fadeStep evs st <> hidden).
{ induction evs as [|ev r IH]; intros st H; simpl; [exact H|].
  apply IH, fadeStep_shown, H. }
apply G. discriminate.
Qed.

(** * Zoom limits and the parked camera *)

Lemma half_fov_trig :
  0.46 < sin (degToRad (CAMERA_FOV_DEG / 2)) < 0.4801
  /\ 0.884 < cos (degToRad (CAMERA_FOV_DEG / 2)) <= 1.
Proof.
pose proof PI_tight as [Pl Pu].
set (x := degToRad (CAMERA_FOV_DEG / 2)).
assert (Hx : 0.4799 < x < 0.4801).
{ unfold x, degToRad, DEG2RAD, CAMERA_FOV_DEG. split; lra. }
pose proof (sin_lt_x x ltac:(lra)) as S1.
pose proof (sin_ge_cubic x ltac:(lra)) as S2.
pose proof (cos_ge_quadratic x ltac:(lra)) as C1.
pose proof (COS_bound x) as [_ C2].
assert (X2 : x * x < 0.2305) by nra.
assert (X3 : x * x * x < 0.1107) by nra.
repeat split; lra.
Qed.

Lemma divide_by_ratio (a b s c : R) :
  s <> 0 -> c <> 0 -> a / (s / c) * b = a * b * c / s.
Proof. intros Hs Hc. field. split; assumption. Qed.

Lemma MIN_DIST_FILL_bounds : 2.1 < MIN_DIST_FILL < 2.5.
Proof.
destruct half_fov_trig as [[Sl Su] [Cl Cu]].
unfold MIN_DIST_FILL, tan, EARTH_OUTER_RADIUS.
set (s := sin (degToRad (CAMERA_FOV_DEG / 2))) in *.
set (c := cos (degToRad (CAMERA_FOV_DEG / 2))) in *.
rewrite divide_by_ratio by lra.
split.
- apply Rmult_lt_reg_r with s; [lra|].
  unfold Rdiv. rewrite Rmult_assoc, Rinv_l by lra. lra.
- apply Rmult_lt_reg_r with s; [lra|].
  unfold Rdiv. rewrite Rmult_assoc, Rinv_l by lra. lra.
Qed.

(** Where the pilot parks the camera: outside the atmosphere shell, but
    nearer to the globe than the orbit controls would let the user zoom; the
    start-up camera distance lies within the controls' range. *)
Theorem parked_camera_inside_zoom_limit (w : Flight) (p : Vector3) (now : R) :
  length p <> 0 ->
  exists e, endPos (pilot (setTarget w (Some p) now)) = Some e
            /\ EARTH_OUTER_RADIUS < length e < MIN_DIST_FILL
            /\ MIN_DIST_FILL < length (position (camera (sceneInit None)))
               < MAX_DIST_NICE.
Proof.
intros Hp. pose proof MIN_DIST_FILL_bounds as [Ml Mu].
exists (multiplyScalar (normalize p) (GLOBE_RADIUS + 0.09)).
split; [reflexivity|].
rewrite length_multiplyScalar by (unfold GLOBE_RADIUS; lra).
rewrite normalize_unit by exact Hp.
simpl. rewrite length_z, Rabs_right by lra.
unfold EARTH_OUTER_RADIUS, GLOBE_RADIUS, MAX_DIST_NICE. lra.
Qed.

Lemma parked_camera_inside_zoom_limit_witness :
  exists e, endPos (pilot (setTarget (sceneInit None) (Some (vec3 0 0 1.5)) 0)) = Some e
            /\ EARTH_OUTER_RADIUS < length e < MIN_DIST_FILL
            /\ MIN_DIST_FILL < length (position (camera (sceneInit None)))
               < MAX_DIST_NICE.
Proof.
apply parked_camera_inside_zoom_limit. rewrite length_z, Rabs_right; lra.
Defined.

(** * Consecutive flights and the Julian clock *)

Lemma completed_flight_arrivals
  (w : Flight) (p : Vector3) (now0 : R) (nows : list R) :
  (exists now, In now nows
               /\ now0 + duration (pilot (setTarget w (Some p) now0)) * 1000 <= now) ->
  arrivals (pilotFrames (setTarget w (Some p) now0) nows) = S (arrivals w).
Proof.
intros Hex.
destruct (setTarget_inFlight w p now0) as (Hin & Hfd & Harr & Ht0).
rewrite pilotFrames_arrivals, (fireTrace_first _ _ _ _ _ Hin Hfd), count_firstOnly.
rewrite (closeTrace_completed nows _ _ _ _ Hin).
- rewrite Harr. lia.
- apply flightDuration_pos.
- rewrite Ht0. exact Hex.
Qed.

(** Each new target re-arms the callback: two flights in a row, each updated
    at least once three seconds or more after its start, call [onArrive]
    twice in all. *)
Theorem two_flights_two_arrivals
  (w : Flight) (p1 p2 : Vector3) (s1 s2 : R) (run1 run2 : list R) :
  (exists now, In now run1 /\ s1 + 3000 <= now) ->
  (exists now, In now run2 /\ s2 + 3000 <= now) ->
  let w1 := pilotFrames (setTarget w (Some p1) s1) run1 in
  let w2 := pilotFrames (setTarget w1 (Some p2) s2) run2 in
  arrivals w1 = S (arrivals w) /\ arrivals w2 = S (S (arrivals w)).
Proof.
intros (n1 & I1 & L1) (n2 & I2 & L2) w1 w2.
assert (A1 : arrivals w1 = S (arrivals w)).
{ apply completed_flight_arrivals. exists n1. split; [exact I1|].
  pose proof (flightDuration_range
    (distanceTo (position (camera w))
       (multiplyScalar (normalize p1) (GLOBE_RADIUS + 0.09)))).
  cbn [setTarget pilot duration]. lra. }
split; [exact A1|]. rewrite <- A1.
apply completed_flight_arrivals. exists n2. split; [exact I2|].
pose proof (flightDuration_range
  (distanceTo (position (camera w1))
     (multiplyScalar (normalize p2) (GLOBE_RADIUS + 0.09)))).
cbn [setTarget pilot duration]. lra.
Qed.

Lemma two_flights_two_arrivals_witness :
  arrivals (pilotFrames
    (setTarget (pilotFrames (setTarget (sceneInit None) (Some (vec3 0 0 (-1.5))) 0)
                            [16; 3000])
               (Some (vec3 0 0 1.5)) 5000) [5016; 8000]) = 2%nat.
Proof.
refine (proj2 (two_flights_two_arrivals (sceneInit None) (vec3 0 0 (-1.5))
                 (vec3 0 0 1.5) 0 5000 [16; 3000] [5016; 8000] _ _)).
- exists 3000. split; [simpl; auto|lra].
- exists 8000. split; [simpl; auto|lra].
Defined.

(** The Julian clock: centuries are counted from 2000-01-01T12:00:00Z, and
    36525 days of 86400000 ms later the count is one higher. *)
Theorem julian_centuries :
  T (jd (utcInstant 2000 1 1 12 0 0)) = 0 /\
  (forall d : Instant, T (jd (d + 36525 * 86400000)%Z) = T (jd d) + 1).
Proof.
split.
- replace (utcInstant 2000 1 1 12 0 0) with 946728000000%Z by reflexivity.
  unfold T, jd. lra.
- intros d. unfold T, jd. rewrite plus_IZR, mult_IZR. lra.
Qed.
